(** * Schema-driven collection reports: a shallow embedding

    The bookmarklet toolset turns a collection of heterogeneous items into
    rows through a schema (label -> path or function), formats every cell
    and renders the rows either as an HTML table or as delimited text.
    This file embeds [resolvePath], [ListofObj_Base], [ListofObj_to_Table]
    and [ListofObj_to_DelimitedText] and proves properties about them.

    Modelling conventions.
    - A JavaScript string is the list of its UTF-16 code units.
    - A JavaScript value is one of undefined, null, a boolean, a number, a
      string, an array or a plain object.  Numbers are the integer-valued
      ones (the ordinal column, lengths, indexes); an object is the ordered
      list of the data properties a property read can see.  Functions,
      symbols, accessors and inherited built-in methods are not values of
      the model.
    - A property read and a string conversion are the ones of the
      language on such values: an object that replaces its own
      conversion, or a path that reaches an inherited accessor, is outside
      the model, and a theorem that a read or a conversion cannot fail
      says for which values it is stated.
    - Code that may throw returns a [result]. *)

From Stdlib Require Import Ascii String Numbers.DecimalString.
From Stdlib Require Import ZArith NArith Lia Bool List.
From Stdlib Require DecimalPos DecimalFacts.
Import ListNotations.

Set Warnings "-register-all".

Local Open Scope list_scope.

(* ================================================================== *)
(** * Strings *)
(* ================================================================== *)

Module JsString.

(** A code unit and a string of code units. *)
Definition char16 := N.
Definition jsstring := list char16.

(** A literal of the source, written with the characters of the file. *)
Definition lit (s : string) : jsstring :=
  map N_of_ascii (list_ascii_of_string s).

Definition dquote : char16 := 34%N.
Definition comma : char16 := 44%N.
Definition LF : char16 := 10%N.
Definition CR : char16 := 13%N.
Definition dot : char16 := 46%N.

Definition eqb (a b : jsstring) : bool :=
  if list_eq_dec N.eq_dec a b then true else false.

(** The code units [String.prototype.trim] strips: WhiteSpace and
    LineTerminator of the language specification. *)
Definition isWhiteSpace (c : char16) : bool :=
  (N.eqb c 9 || N.eqb c 10 || N.eqb c 11 || N.eqb c 12 || N.eqb c 13
   || N.eqb c 32 || N.eqb c 160 || N.eqb c 5760
   || (N.leb 8192 c && N.leb c 8202)
   || N.eqb c 8232 || N.eqb c 8233 || N.eqb c 8239 || N.eqb c 8287
   || N.eqb c 12288 || N.eqb c 65279)%bool.

Fixpoint dropWhile {A} (p : A -> bool) (l : list A) : list A :=
  match l with
  | [] => []
  | x :: r => if p x then dropWhile p r else l
  end.

Definition trimStart (s : jsstring) : jsstring := dropWhile isWhiteSpace s.
Definition trimEnd (s : jsstring) : jsstring :=
  rev (dropWhile isWhiteSpace (rev s)).

(** [s.trim()] *)
Definition trim (s : jsstring) : jsstring := trimEnd (trimStart s).

(** [arr.join(sep)] on an array of strings. *)
Fixpoint join (sep : jsstring) (l : list jsstring) : jsstring :=
  match l with
  | [] => []
  | [x] => x
  | x :: r => x ++ sep ++ join sep r
  end.

(** [s.split(sep)] for a separator of one code unit: the pieces between
    the separators, one piece for the empty string. *)
Fixpoint split (sep : char16) (s : jsstring) : list jsstring :=
  match s with
  | [] => [[]]
  | c :: r =>
      if N.eqb c sep then [] :: split sep r
      else match split sep r with
           | [] => [[c]]
           | p :: ps => (c :: p) :: ps
           end
  end.

(** [regex.test(s)] for a regular expression that is one character class. *)
Definition test_class (cls : list char16) (s : jsstring) : bool :=
  existsb (fun c => existsb (N.eqb c) cls) s.

(** [s.replace(/c/g, by)] for a one-character pattern. *)
Definition replace_all (c : char16) (by_ : jsstring) (s : jsstring) : jsstring :=
  flat_map (fun x => if N.eqb x c then by_ else [x]) s.

(** Decimal form of an integer, as [String(n)] prints it (integers short
    of the size where the exponent notation starts). *)
Definition of_Z (z : Z) : jsstring :=
  lit (NilZero.string_of_int (Z.to_int z)).

Definition of_nat (n : nat) : jsstring := of_Z (Z.of_nat n).

End JsString.

Import JsString.

(* ================================================================== *)
(** * Results of code that may throw *)
(* ================================================================== *)

Inductive error : Type :=
| TypeError
| RangeError
| Thrown (msg : jsstring).

Inductive result (A : Type) : Type :=
| Ok (a : A)
| Throw (e : error).

Arguments Ok {A} a.
Arguments Throw {A} e.

Definition bind {A B} (m : result A) (k : A -> result B) : result B :=
  match m with
  | Ok a => k a
  | Throw e => Throw e
  end.

Definition fmap {A B} (f : A -> B) (m : result A) : result B :=
  bind m (fun a => Ok (f a)).

Notation "x <- m ;; k" := (bind m (fun x => k))
  (at level 61, m at next level, right associativity).

(** [arr.map(f)] where [f] may throw: elements are visited left to right
    and the first exception ends the traversal. *)
Fixpoint mapM {A B} (f : A -> result B) (l : list A) : result (list B) :=
  match l with
  | [] => Ok []
  | x :: r => y <- f x ;; ys <- mapM f r ;; Ok (y :: ys)
  end.

Definition succeeds {A} (m : result A) : Prop := exists a, m = Ok a.

(* ================================================================== *)
(** * Values *)
(* ================================================================== *)

Inductive value : Type :=
| VUndefined
| VNull
| VBool (b : bool)
| VNum (n : Z)
| VStr (s : jsstring)
| VArr (elems : list value)
| VObj (props : list (jsstring * value)).

(** [typeof v] *)
Inductive jstype := TUndefined | TObject | TBoolean | TNumber | TString.

Definition typeof (v : value) : jstype :=
  match v with
  | VUndefined => TUndefined
  | VNull => TObject
  | VBool _ => TBoolean
  | VNum _ => TNumber
  | VStr _ => TString
  | VArr _ | VObj _ => TObject
  end.

(** [v == null] *)
Definition is_nullish (v : value) : bool :=
  match v with
  | VUndefined | VNull => true
  | _ => false
  end.

(** ToBoolean, the test [&&] and [if] apply. *)
Definition truthy (v : value) : bool :=
  match v with
  | VUndefined | VNull => false
  | VBool b => b
  | VNum n => negb (Z.eqb n 0)
  | VStr s => match s with [] => false | _ => true end
  | VArr _ | VObj _ => true
  end.

(** ToString, as [String(v)], a template literal and [+] with a string
    apply it.  An array prints its elements separated by commas, null and
    undefined elements as nothing; a plain object prints its class tag.
    This is the conversion the language gives a value that does not
    replace it with one of its own. *)
Fixpoint toString (v : value) : jsstring :=
  match v with
  | VUndefined => lit "undefined"
  | VNull => lit "null"
  | VBool true => lit "true"
  | VBool false => lit "false"
  | VNum n => of_Z n
  | VStr s => s
  | VArr elems =>
      join [comma]
        (map (fun e => if is_nullish e then [] else toString e) elems)
  | VObj _ => lit "[object Object]"
  end.

(** An array index written canonically: decimal digits, no leading zero. *)
Definition is_digit (c : char16) : bool := (N.leb 48 c && N.leb c 57)%bool.

Definition digits_value (s : jsstring) : N :=
  fold_left (fun acc c => (acc * 10 + (c - 48))%N) s 0%N.

Definition array_index (key : jsstring) : option nat :=
  match key with
  | [] => None
  | c :: r =>
      if (forallb is_digit key && (negb (N.eqb c 48) || match r with [] => true | _ => false end))%bool
      then Some (N.to_nat (digits_value key))
      else None
  end.

Fixpoint lookup (key : jsstring) (props : list (jsstring * value)) : option value :=
  match props with
  | [] => None
  | (k, v) :: r => if JsString.eqb k key then Some v else lookup key r
  end.

(** [v[key]]: reading a property of null or undefined throws; a missing
    property reads as undefined.  The properties read are the own data
    properties of the value: the elements and the length of an array or a
    string, the listed properties of an object. *)
Definition get (v : value) (key : jsstring) : result value :=
  match v with
  | VUndefined | VNull => Throw TypeError
  | VBool _ | VNum _ => Ok VUndefined
  | VStr s =>
      if JsString.eqb key (lit "length") then Ok (VNum (Z.of_nat (length s)))
      else match array_index key with
           | Some i => Ok (match nth_error s i with
                           | Some c => VStr [c]
                           | None => VUndefined
                           end)
           | None => Ok VUndefined
           end
  | VArr elems =>
      if JsString.eqb key (lit "length") then Ok (VNum (Z.of_nat (length elems)))
      else match array_index key with
           | Some i => Ok (nth i elems VUndefined)
           | None => Ok VUndefined
           end
  | VObj props =>
      Ok (match lookup key props with
          | Some x => x
          | None => VUndefined
          end)
  end.

(** ToNumber, with [None] for NaN.  A string denotes a number when it is,
    up to surrounding white space, empty or an optionally signed run of
    decimal digits; literals of numbers that are not integers of this
    form (fractions, exponents, other radixes, Infinity) are not
    recognised, as such numbers are not in the model. *)
Definition stringToNumber (s : jsstring) : option Z :=
  match trim s with
  | [] => Some 0%Z
  | c :: r =>
      let body := if (N.eqb c 43 || N.eqb c 45)%bool then r else c :: r in
      match body with
      | [] => None
      | _ =>
          if forallb is_digit body
          then Some (if N.eqb c 45 then (- Z.of_N (digits_value body))%Z
                     else Z.of_N (digits_value body))
          else None
      end
  end.

Definition toNumber (v : value) : option Z :=
  match v with
  | VUndefined => None
  | VNull => Some 0%Z
  | VBool b => Some (if b then 1 else 0)%Z
  | VNum n => Some n
  | VStr s => stringToNumber s
  | VArr _ | VObj _ => stringToNumber (toString v)
  end.

(** ToLength: NaN and negatives are 0, the rest is capped at 2^53 - 1. *)
Definition toLength (v : value) : Z :=
  match toNumber v with
  | None => 0%Z
  | Some n => Z.min (Z.max 0 n) (2 ^ 53 - 1)
  end.

(** [Array.from(v)] for a non-null value of type object.  An array is
    iterated; any other object is read as array-like through its length
    and its indexed properties.  An array cannot be created with more than
    2^32 - 1 elements. *)
Definition arrayFrom (v : value) : result (list value) :=
  match v with
  | VArr elems => Ok elems
  | VObj props =>
      len <- fmap toLength (get v (lit "length")) ;;
      if (2 ^ 32 - 1 <? len)%Z then Throw RangeError
      else mapM (fun i => get v (of_nat i)) (seq 0 (Z.to_nat len))
  | _ => Throw TypeError
  end.

(* ================================================================== *)
(** * The program *)
(* ================================================================== *)

(** [arr.reduce(f, init)] where the callback may throw. *)
Fixpoint reduceM {A B} (f : A -> B -> result A) (l : list B) (init : A) : result A :=
  match l with
  | [] => Ok init
  | x :: r => acc <- f init x ;; reduceM f r acc
  end.

(** The callback of [resolvePath]: [acc && acc[key]]. *)
Definition and_get (acc : value) (key : jsstring) : result value :=
  if truthy acc then get acc key else Ok acc.

(** [resolvePath(root, path)]:
    [path.split(".").reduce((acc, key) => acc && acc[key], root)] *)
Definition resolvePath (root : value) (path : jsstring) : result value :=
  reduceM and_get (split dot path) root.

(** A schema entry: a dotted path or a function of the item.  A function
    of the schema may throw. *)
Inductive resolver : Type :=
| RPath (path : jsstring)
| RFun (f : value -> result value).

(** A schema is the object literal read in the order [Object.keys] and
    [Object.values] enumerate it. *)
Definition schema_t := list (jsstring * resolver).

Module ListofObj_Base.

Record t : Type := mk {
  header : list jsstring;
  fields : list resolver;
  collection : list value;
  schema : schema_t;
  title : jsstring
}.

(** [constructor(schema, collection)]; the field initialisers give the
    header its first label, No., and the empty title before the body
    runs. *)
Definition new (schema : schema_t) (collection : list value) : t :=
  {| header := [lit "No."] ++ map fst schema;
     fields := map snd schema;
     collection := collection;
     schema := schema;
     title := [] |}.

Definition setTitle (title : jsstring) (this : t) : t :=
  {| header := header this;
     fields := fields this;
     collection := collection this;
     schema := schema this;
     title := title |}.

Definition resolveField (objItem : value) (r : resolver) : result value :=
  match r with
  | RFun f => f objItem
  | RPath path => resolvePath objItem path
  end.

(** [buildRows()]: one row [[i + 1, ...row]] per index of the
    collection. *)
Definition buildRows (this : t) : result (list (list value)) :=
  mapM (fun i =>
          let objItem := nth i (collection this) VUndefined in
          row <- mapM (resolveField objItem) (fields this) ;;
          Ok (VNum (Z.of_nat i + 1) :: row))
       (seq 0 (List.length (collection this))).

(** The template literal [`${v.name}: ${v.value}`]. *)
Definition name_value_pair (v : value) : result jsstring :=
  n <- get v (lit "name") ;;
  x <- get v (lit "value") ;;
  Ok (toString n ++ lit ": " ++ toString x).

(** [formatValue(value)] *)
Definition formatValue (v : value) : result jsstring :=
  if is_nullish v then Ok []
  else match typeof v with
       | TObject =>
           arr <- arrayFrom v ;;
           parts <- mapM name_value_pair arr ;;
           Ok (join (lit "; ") parts)
       | _ => Ok (trim (toString v))
       end.

End ListofObj_Base.

Module ListofObj_to_DelimitedText.

Record options : Type := mkOptions {
  opt_columnDelimiter : option jsstring;
  opt_rowDelimiter : option jsstring
}.

Definition no_options : options := mkOptions None None.

Record t : Type := mk {
  base : ListofObj_Base.t;
  columnDelimiter : jsstring;
  rowDelimiter : jsstring
}.

(** [a ?? b] on an option that is absent, null or undefined. *)
Definition nullish_or (a : option jsstring) (b : jsstring) : jsstring :=
  match a with
  | Some x => x
  | None => b
  end.

(** [constructor(schema, collection, options = {})] *)
Definition new (schema : schema_t) (collection : list value) (o : options) : t :=
  {| base := ListofObj_Base.new schema collection;
     columnDelimiter := nullish_or (opt_columnDelimiter o) (lit ",");
     rowDelimiter := nullish_or (opt_rowDelimiter o) (lit "<BR>") |}.

Definition setTitle (title : jsstring) (this : t) : t :=
  {| base := ListofObj_Base.setTitle title (base this);
     columnDelimiter := columnDelimiter this;
     rowDelimiter := rowDelimiter this |}.

(** [escapeForCSV(inputString)] *)
Definition escapeForCSV (inputString : jsstring) : jsstring :=
  if test_class [dquote; comma; LF] inputString
  then [dquote] ++ replace_all dquote [dquote; dquote] inputString ++ [dquote]
  else inputString.

(** The loop bound [i < arr.length]: the number of indexes below the
    length, none when the length is not a number. *)
Definition loop_count (len : value) : nat :=
  match toNumber len with
  | None => 0
  | Some n => Z.to_nat n
  end.

(** One turn of the loop of [CSVlistAttributes]. *)
Definition CSVlistAttributes_item (arr : value) (i : nat) : result jsstring :=
  e <- get arr (of_nat i) ;;
  n <- get e (lit "name") ;;
  e' <- get arr (of_nat i) ;;
  x <- get e' (lit "value") ;;
  Ok (toString n ++ lit ": " ++ toString x ++ lit ";" ++ [LF; CR]).

Definition CSVlistAttributes (arr : value) : result jsstring :=
  len <- get arr (lit "length") ;;
  pieces <- mapM (CSVlistAttributes_item arr) (seq 0 (loop_count len)) ;;
  Ok (concat pieces).

(** [formatCSVcellvalues(strCellinput)] *)
Definition formatCSVcellvalues (strCellinput : value) : result jsstring :=
  match typeof strCellinput with
  | TObject => CSVlistAttributes strCellinput
  | _ => Ok (trim (toString strCellinput))
  end.

(** The cell callback of [render]:
    [v => formatValue(escapeForCSV(formatCSVcellvalues(v)))] *)
Definition cell (v : value) : result jsstring :=
  s <- formatCSVcellvalues v ;;
  ListofObj_Base.formatValue (VStr (escapeForCSV s)).

Definition title_block (title rowDelimiter : jsstring) : jsstring :=
  match title with
  | [] => []
  | _ => lit "<STRONG>" ++ title ++ lit "</STRONG>" ++ rowDelimiter
  end.

Definition header_line (this : t) : jsstring :=
  join (columnDelimiter this) (ListofObj_Base.header (base this)) ++ rowDelimiter this.

Definition row_line (this : t) (row : list value) : result jsstring :=
  cells <- mapM cell row ;;
  Ok (join (columnDelimiter this) cells ++ rowDelimiter this).

(** [render()] *)
Definition render (this : t) : result jsstring :=
  let output := title_block (ListofObj_Base.title (base this)) (rowDelimiter this)
                ++ header_line this in
  rows <- ListofObj_Base.buildRows (base this) ;;
  lines <- mapM (row_line this) rows ;;
  Ok (output ++ concat lines).

End ListofObj_to_DelimitedText.

Module ListofObj_to_Table.

Record t : Type := mk {
  base : ListofObj_Base.t;
  objCSV : jsstring
}.

Definition new (schema : schema_t) (collection : list value) : t :=
  {| base := ListofObj_Base.new schema collection; objCSV := [] |}.

Definition setTitle (title : jsstring) (this : t) : t :=
  {| base := ListofObj_Base.setTitle title (base this); objCSV := objCSV this |}.

Definition nl : jsstring := [LF].

(** [tableStyle(headerBackgroundColor = "#FFC107")] *)
Definition tableStyle (headerBackgroundColor : jsstring) : jsstring :=
  nl ++ lit "      <STYLE>" ++
  nl ++ lit "        table, th, td {" ++
  nl ++ lit "          border: 1px solid #9E9E9E;" ++
  nl ++ lit "          border-collapse: collapse;" ++
  nl ++ lit "        }" ++
  nl ++ lit "        th { background: " ++ headerBackgroundColor ++ lit "; }" ++
  nl ++ lit "      </STYLE>" ++
  nl ++ lit "    ".

(** [createCSVBloblink(objCSV, csvFileName)].  The browser hands out the
    address of the blob: [createObjectURL] stands for
    [window.URL.createObjectURL(new Blob([objCSV], {type: "text/csv"}))]. *)
Definition createCSVBloblink (createObjectURL : jsstring -> jsstring)
    (objCSV csvFileName : jsstring) : jsstring :=
  let linkText := lit "Download as CSV" in
  let csvURL := createObjectURL objCSV in
  lit "<A href=" ++ [dquote] ++ csvURL ++ [dquote] ++ lit " download=" ++ [dquote]
    ++ csvFileName ++ [dquote] ++ lit ">" ++ linkText ++ lit "</A>".

Definition header_cells (this : t) : jsstring :=
  concat (map (fun h => lit "<TH>" ++ h ++ lit "</TH>") (ListofObj_Base.header (base this))).

Definition row_cells (row : list value) : result jsstring :=
  cells <- mapM (fun c => s <- ListofObj_Base.formatValue c ;; Ok (lit "<TD>" ++ s ++ lit "</TD>")) row ;;
  Ok (lit "<TR>" ++ concat cells ++ lit "</TR>").

(** [render(csvFileName = "download.csv")]: the markup, and the object
    with its [objCSV] field assigned. *)
Definition render (createObjectURL : jsstring -> jsstring) (this : t)
    (csvFileName : jsstring) : result (jsstring * t) :=
  let html :=
    (match ListofObj_Base.title (base this) with
     | [] => []
     | ttl => lit "<H1>" ++ ttl ++ lit "</H1>"
     end)
    ++ tableStyle (lit "#FFC107")
    ++ lit "<TABLE><TR>" ++ header_cells this ++ lit "</TR>" in
  rows <- ListofObj_Base.buildRows (base this) ;;
  trs <- mapM row_cells rows ;;
  let html := html ++ concat trs ++ lit "</TABLE><BR>" in
  let objDelimTxt :=
    ListofObj_to_DelimitedText.new (ListofObj_Base.schema (base this)) (ListofObj_Base.collection (base this))
      (ListofObj_to_DelimitedText.mkOptions (Some (lit ",")) (Some [CR; LF])) in
  csv <- ListofObj_to_DelimitedText.render objDelimTxt ;;
  Ok (html ++ createCSVBloblink createObjectURL csv csvFileName,
      {| base := base this; objCSV := csv |}).

End ListofObj_to_Table.

(* ================================================================== *)
(** * The stand-alone class source *)
(* ================================================================== *)

(** The repository also keeps the three classes as a stand-alone source.
    Its delimited-text [render] differs from the one of the toolset in the
    cell callback alone, which is the shared formatter:
    [row.map(v => ListofObj_Base.formatValue(v)).join(...)]. *)
Module ClassSource.

Definition row_line (this : ListofObj_to_DelimitedText.t) (row : list value) : result jsstring :=
  cells <- mapM ListofObj_Base.formatValue row ;;
  Ok (join (ListofObj_to_DelimitedText.columnDelimiter this) cells
      ++ ListofObj_to_DelimitedText.rowDelimiter this).

Definition render (this : ListofObj_to_DelimitedText.t) : result jsstring :=
  let output :=
    ListofObj_to_DelimitedText.title_block (ListofObj_Base.title (ListofObj_to_DelimitedText.base this))
      (ListofObj_to_DelimitedText.rowDelimiter this)
    ++ ListofObj_to_DelimitedText.header_line this in
  rows <- ListofObj_Base.buildRows (ListofObj_to_DelimitedText.base this) ;;
  lines <- mapM (row_line this) rows ;;
  Ok (output ++ concat lines).

End ClassSource.

(* ================================================================== *)
(** * Specification-side definitions *)
(* ================================================================== *)

(** The text of the CSV encoder's contract: a cell needs quoting when it
    holds a double quote, a comma or a newline. *)
Definition needs_quoting (t : jsstring) : Prop :=
  In dquote t \/ In comma t \/ In LF t.

(** "Double every embedded double quote". *)
Fixpoint doubled (t : jsstring) : jsstring :=
  match t with
  | [] => []
  | c :: r => if N.eqb c dquote then dquote :: dquote :: doubled r
              else c :: doubled r
  end.

(** "Wrap it in double quotes". *)
Definition quoted (t : jsstring) : jsstring := [dquote] ++ t ++ [dquote].





(** Every function of the schema returns a value on every item. *)
Definition resolvers_return (s : schema_t) (c : list value) : Prop :=
  forall f item, In (RFun f) (map snd s) -> In item c -> succeeds (f item).

(** The delimiters the table gives its CSV sibling. *)
Definition csv_options : ListofObj_to_DelimitedText.options :=
  ListofObj_to_DelimitedText.mkOptions (Some (lit ",")) (Some [CR; LF]).

(* ================================================================== *)
(** * Sample data *)
(* ================================================================== *)

(** The schema of the end-to-end example: one column, Label, read from
    the property name. *)
Definition label_schema : schema_t := [(lit "Label", RPath (lit "name"))].

Definition item_named (v : value) : value := VObj [(lit "name", v)].

(** The collection of the end-to-end example: a named item, an item whose
    name is null, an item without a name. *)
Definition example_collection : list value :=
  [item_named (VStr (lit "A")); item_named VNull; VObj []].

Definition example_rows : list (list value) :=
  [[VNum 1; VStr (lit "A")]; [VNum 2; VNull]; [VNum 3; VUndefined]].

(** Delimiters of a plain-text display. *)
Definition display_options : ListofObj_to_DelimitedText.options :=
  ListofObj_to_DelimitedText.mkOptions (Some (lit " | ")) (Some (lit "<BR>")).

Definition nested_item : value :=
  VObj [(lit "a", VObj [(lit "b", VStr (lit "deep"))]); (lit "n", VNull)].

(** A header cell of the table, [`<TH>${h}</TH>`]. *)
Definition th_cell (h : jsstring) : jsstring := lit "<TH>" ++ h ++ lit "</TH>".

(* ================================================================== *)
(** * The page header: [PageProperty] *)
(* ================================================================== *)

(** What the browser supplies to the classes below: [url_protocol s] is
    the protocol of [new URL(s)], or nothing when the constructor throws;
    [decodeURIComponent] may throw on a malformed escape. *)
Record platform : Type := mkPlatform {
  url_protocol : jsstring -> option jsstring;
  decodeURIComponent : jsstring -> result jsstring
}.

Definition spaces (n : nat) : jsstring := repeat 32%N n.

Definition amp : char16 := 38%N.
Definition lt : char16 := 60%N.
Definition gt : char16 := 62%N.

(** [s.replace(/[...]/g, f)] for a character class and a callback on the
    matched character. *)
Definition replace_class (cls : list char16) (f : char16 -> jsstring) (s : jsstring) : jsstring :=
  flat_map (fun c => if existsb (N.eqb c) cls then f c else [c]) s.

Module PageProperty.

Record t : Type := mk {
  pageTitle : jsstring;
  objProperty : list (jsstring * value)
}.

(** [constructor(objProperty, pageTitle = "")] *)
Definition new (objProperty : list (jsstring * value)) (pageTitle : jsstring) : t :=
  {| pageTitle := pageTitle; objProperty := objProperty |}.

(** [isValidHttpUrl(strTest)] *)
Definition isValidHttpUrl (P : platform) (strTest : value) : bool :=
  match url_protocol P (toString strTest) with
  | Some protocol =>
      (JsString.eqb protocol (lit "http:") || JsString.eqb protocol (lit "https:"))%bool
  | None => false
  end.

(** [tag => tagsToReplace[tag] || tag] *)
Definition replaceTag (tag : char16) : jsstring :=
  if N.eqb tag amp then lit "&amp;"
  else if N.eqb tag lt then lit "&lt;"
  else if N.eqb tag gt then lit "&gt;"
  else [tag].

(** [str => str.replace(/[&<>]/g, replaceTag)] *)
Definition safe_tags_replace (str : jsstring) : jsstring :=
  replace_class [amp; lt; gt] replaceTag str.

(** [formatObjvalues(strCellinput)] *)
Definition formatObjvalues (P : platform) (strCellinput : value) : result jsstring :=
  if isValidHttpUrl P strCellinput then
    decoded <- decodeURIComponent P (toString strCellinput) ;;
    Ok ([LF] ++ spaces 24 ++ lit "<A HREF=" ++ [dquote] ++ toString strCellinput
        ++ [dquote] ++ lit " target=" ++ [dquote] ++ lit "_blank" ++ [dquote] ++ lit ">"
        ++ [LF] ++ spaces 28 ++ decoded
        ++ [LF] ++ spaces 24 ++ lit "</A>"
        ++ [LF] ++ spaces 20)
  else
    Ok (if (is_nullish strCellinput
            || Nat.eqb (List.length (trim (toString strCellinput))) 0)%bool
        then []
        else safe_tags_replace (trim (toString strCellinput))).

(** One turn of the loop of [displayPageHeaders]. *)
Definition header_entry (P : platform) (kv : jsstring * value) : result jsstring :=
  text <- formatObjvalues P (snd kv) ;;
  Ok (lit "<STRONG>" ++ fst kv ++ lit "</STRONG>: " ++ text ++ lit "<BR>").

(** [displayPageHeaders()]; the properties are visited in the order of
    [for ... in], which is the order of the list. *)
Definition displayPageHeaders (P : platform) (this : t) : result jsstring :=
  let strHeader := pageTitle this in
  let strOutput := lit "<TITLE>" ++ strHeader ++ lit "</TITLE>"
                   ++ lit "<H1>" ++ strHeader ++ lit "</H1>" in
  entries <- mapM (header_entry P) (objProperty this) ;;
  Ok (strOutput ++ concat entries ++ lit "<BR>").

(** [displayPageFooters()] *)
Definition displayPageFooters : jsstring :=
  [LF] ++ spaces 20 ++ lit "<BR><BR>"
  ++ [LF] ++ spaces 20 ++ lit "<DIV style='text-align: center;'>"
  ++ [LF] ++ spaces 24 ++ lit "<CITE>Copyright: (c) 2026, Washington Alto</CITE>"
  ++ [LF] ++ spaces 20 ++ lit "</DIV>"
  ++ [LF] ++ spaces 16.

End PageProperty.

(* ================================================================== *)
(** * The cookie collection *)
(* ================================================================== *)

(** An array index: a canonical decimal numeral below 2^32 - 1. *)
Definition as_array_index (key : jsstring) : option nat :=
  match key with
  | [] => None
  | c :: r =>
      if (forallb is_digit key
          && (negb (N.eqb c 48) || match r with [] => true | _ => false end)
          && (digits_value key <? 4294967295)%N)%bool
      then Some (N.to_nat (digits_value key))
      else None
  end.

Fixpoint starts_with (pre s : jsstring) : bool :=
  match pre, s with
  | [], _ => true
  | _ :: _, [] => false
  | a :: pre', b :: s' => (N.eqb a b && starts_with pre' s')%bool
  end.

(** [s.split(sep)] for a separator of one or more code units: the text is
    cut at the leftmost occurrences that do not overlap.  [skip] counts
    the code units of a separator still to pass over, [cur] holds the
    current piece, last code unit first. *)
Fixpoint split_go (sep s : jsstring) (skip : nat) (cur : jsstring) : list jsstring :=
  match s with
  | [] => [rev cur]
  | c :: r =>
      match skip with
      | S k => split_go sep r k cur
      | O => if starts_with sep s
             then rev cur :: split_go sep r (List.length sep - 1) []
             else split_go sep r 0 (c :: cur)
      end
  end.

Definition split_str (sep s : jsstring) : list jsstring := split_go sep s 0 [].

(** [s.indexOf(c)] for one code unit, nothing standing for -1. *)
Fixpoint index_of (c : char16) (s : jsstring) : option nat :=
  match s with
  | [] => None
  | x :: r => if N.eqb x c then Some 0 else option_map S (index_of c r)
  end.

(** Own properties of an ordinary object are enumerated with the array
    indexes first, in ascending order, and the other names after them in
    the order of their creation. *)
Fixpoint insert_index (n : nat) (key : jsstring) (v : value)
    (props : list (jsstring * value)) : list (jsstring * value) :=
  match props with
  | [] => [(key, v)]
  | (k, x) :: r =>
      match as_array_index k with
      | Some m => if n <? m then (key, v) :: props
                  else (k, x) :: insert_index n key v r
      | None => (key, v) :: props
      end
  end.

Fixpoint replace_prop (key : jsstring) (v : value)
    (props : list (jsstring * value)) : list (jsstring * value) :=
  match props with
  | [] => []
  | (k, x) :: r => if JsString.eqb k key then (k, v) :: r
                   else (k, x) :: replace_prop key v r
  end.

(** [obj[key] = v] on an object literal, for a value [v] that is not an
    object: assigning such a value to [__proto__] changes nothing. *)
Definition set_prop (key : jsstring) (v : value)
    (props : list (jsstring * value)) : list (jsstring * value) :=
  if JsString.eqb key (lit "__proto__") then props
  else match lookup key props with
       | Some _ => replace_prop key v props
       | None =>
           match as_array_index key with
           | Some n => insert_index n key v props
           | None => props ++ [(key, v)]
           end
       end.

(** The name and the value one entry of the cookie string binds, nothing
    for an entry without an equals sign; a value that cannot be decoded is
    kept as it is written. *)
Definition cookie_binding (P : platform) (cookie : jsstring) : option (jsstring * value) :=
  match index_of 61%N cookie with
  | None => None
  | Some separatorIndex =>
      let name := trim (firstn separatorIndex cookie) in
      let value := skipn (separatorIndex + 1) cookie in
      match decodeURIComponent P value with
      | Ok decoded => Some (name, VStr decoded)
      | Throw _ => Some (name, VStr value)
      end
  end.

(** The callback of the reduction in [getCookieObject]. *)
Definition cookie_step (P : platform) (acc : list (jsstring * value))
    (cookie : jsstring) : list (jsstring * value) :=
  match cookie_binding P cookie with
  | None => acc
  | Some (name, v) => set_prop name v acc
  end.

(** [getCookieObject()], on the text of [document.cookie]. *)
Definition getCookieObject (P : platform) (document_cookie : jsstring)
    : list (jsstring * value) :=
  match document_cookie with
  | [] => []
  | _ => fold_left (cookie_step P) (split_str (lit "; ") document_cookie) []
  end.

(** The indexed elements of an array, nothing standing for a hole. *)
Definition js_array := list (option value).

(** [arr[i] = x] *)
Definition array_set (i : nat) (x : value) (arr : js_array) : js_array :=
  if i <? List.length arr
  then firstn i arr ++ Some x :: skipn (S i) arr
  else arr ++ repeat None (i - List.length arr) ++ [Some x].

(** [i in arr] for an array index. *)
Definition array_has (i : nat) (arr : js_array) : bool :=
  match nth_error arr i with
  | Some (Some _) => true
  | _ => false
  end.

Definition cookie_item (name : jsstring) (v : value) : value :=
  VObj [(lit "name", VStr name); (lit "value", v)].

(** The callback of [forEach] in [cookiesToCollection], on the indexed
    elements of the collection.  A name that is no array index only adds
    or skips a named property, which leaves the elements as they are. *)
Definition collection_step (cookieObject : list (jsstring * value))
    (collection : js_array) (entry : jsstring * nat) : js_array :=
  let name := fst entry in
  let index := snd entry in
  let item := cookie_item name
                (match lookup name cookieObject with
                 | Some v => v
                 | None => VUndefined
                 end) in
  let pushed := collection ++ [Some item] in
  let assigned := array_set index item pushed in
  match as_array_index name with
  | Some n => if array_has n assigned then assigned else array_set n item assigned
  | None => assigned
  end.

(** [cookiesToCollection(cookieObject)]: the indexed elements of the
    collection it returns; its length is their number. *)
Definition cookiesToCollection (cookieObject : list (jsstring * value)) : js_array :=
  let keys := map fst cookieObject in
  fold_left (collection_step cookieObject)
    (combine keys (seq 0 (List.length keys))) [].

(** What [collection[i]] reads: a hole reads as undefined. *)
Definition elements (arr : js_array) : list value :=
  map (fun o => match o with Some v => v | None => VUndefined end) arr.

(** The schema of the cookie tool. *)
Definition cookie_schema : schema_t :=
  [(lit "Cookie Name", RPath (lit "name")); (lit "Cookie Value", RPath (lit "value"))].

(* ================================================================== *)
(** * The schemas of the tools *)
(* ================================================================== *)

(** [v.trim()]: only a string has the method. *)
Definition call_trim (v : value) : result jsstring :=
  match v with
  | VStr s => Ok (trim s)
  | _ => Throw TypeError
  end.

(** [a + b + c] on strings around a value that is a string. *)
Definition img_tag (src : jsstring) : value :=
  VStr (lit "<IMG width='200' src='" ++ src ++ lit "'>").

(** The image tool:
    ["Image": el => "<IMG width='200' src='" + el.src.trim() + "'>"]
    between dotted paths. *)
Definition image_schema : schema_t :=
  [(lit "Image URL", RPath (lit "src"));
   (lit "Image", RFun (fun el => src <- get el (lit "src") ;;
                                 t <- call_trim src ;; Ok (img_tag t)));
   (lit "Image Height", RPath (lit "height"));
   (lit "Image Width", RPath (lit "width"));
   (lit "Image Alt", RPath (lit "alt"));
   (lit "Image Loading", RPath (lit "loading"));
   (lit "Image srcset", RPath (lit "srcset"));
   (lit "Image sizes", RPath (lit "sizes"));
   (lit "Image attributes", RPath (lit "attributes"))].

(** The heading tool: [el => el.innerText.trim()] and
    [el => el.innerText.trim().length]. *)
Definition heading_schema : schema_t :=
  [(lit "Name", RPath (lit "tagName"));
   (lit "Content", RFun (fun el => t <- get el (lit "innerText") ;;
                                   s <- call_trim t ;; Ok (VStr s)));
   (lit "Content Length",
    RFun (fun el => t <- get el (lit "innerText") ;;
                    s <- call_trim t ;; Ok (VNum (Z.of_nat (List.length s)))))].

(** [el.attributes.<attr>.value] *)
Definition attribute_value (attr : jsstring) (el : value) : result value :=
  attributes <- get el (lit "attributes") ;;
  a <- get attributes attr ;;
  get a (lit "value").

(** The meta tag tool: [el => el.attributes.name.value],
    [el => String(el.attributes.content.value).trim()] and
    [el => String(el.attributes.content.value).trim().length]. *)
Definition meta_schema : schema_t :=
  [(lit "Name", RFun (attribute_value (lit "name")));
   (lit "Content",
    RFun (fun el => x <- attribute_value (lit "content") el ;;
                    Ok (VStr (trim (toString x)))));
   (lit "Content Length",
    RFun (fun el => x <- attribute_value (lit "content") el ;;
                    Ok (VNum (Z.of_nat (List.length (trim (toString x)))))))].

(* ================================================================== *)
(** * File names: [sanitizeFileName] *)
(* ================================================================== *)

Module FileName.

(** [s.replace(/[...]/g, "")] for a class given as a test. *)
Definition remove_if (p : char16 -> bool) (s : jsstring) : jsstring :=
  filter (fun c => negb (p c)) s.

(** The class [\u0300-\u036f]: the combining marks. *)
Definition is_diacritic (c : char16) : bool := (N.leb 768 c && N.leb c 879)%bool.

(** The class [\x00-\x1F]: the control characters. *)
Definition is_control (c : char16) : bool := N.leb c 31.

(** The characters a Windows file name cannot hold: backslash, slash,
    colon, star, question mark, double quote, less-than, greater-than and
    bar. *)
Definition illegal : list char16 := [92; 47; 58; 42; 63; 34; 60; 62; 124]%N.

Definition is_illegal (c : char16) : bool := existsb (N.eqb c) illegal.

(** [s.replace(/\s+/g, " ")]: every run of white space becomes one
    space; [in_run] tells that the run has begun. *)
Fixpoint collapse_space (in_run : bool) (s : jsstring) : jsstring :=
  match s with
  | [] => []
  | c :: r =>
      if isWhiteSpace c
      then (if in_run then collapse_space true r
            else 32%N :: collapse_space true r)
      else c :: collapse_space false r
  end.

Definition is_dot_or_space (c : char16) : bool := (N.eqb c 46 || N.eqb c 32)%bool.

(** [name.replace(/[. ]+$/, "")] *)
Definition strip_trailing (s : jsstring) : jsstring :=
  rev (dropWhile is_dot_or_space (rev s)).

Definition to_lower (c : char16) : char16 :=
  if (N.leb 65 c && N.leb c 90)%bool then (c + 32)%N else c.

(** [/^(con|prn|aux|nul|com[1-9]|lpt[1-9])$/i.test(name)] *)
Definition is_reserved (name : jsstring) : bool :=
  let lower := map to_lower name in
  (existsb (JsString.eqb lower) [lit "con"; lit "prn"; lit "aux"; lit "nul"]
   || match lower with
      | [a; b; c; d] =>
          (JsString.eqb [a; b; c] (lit "com") || JsString.eqb [a; b; c] (lit "lpt"))
          && (N.leb 49 d && N.leb d 57)
      | _ => false
      end)%bool.

(** [name.match(/(\.[^.]+)$/)]: the last dot with what follows it, when
    something follows it; the empty text when there is no match. *)
Fixpoint extension (s : jsstring) : jsstring :=
  match s with
  | [] => []
  | c :: r =>
      if (N.eqb c 46 && negb (existsb (N.eqb 46) r)
          && match r with [] => false | _ => true end)%bool
      then s
      else extension r
  end.

(** [s.slice(0, stop)] *)
Definition slice0 (s : jsstring) (stop : Z) : jsstring :=
  let len := Z.of_nat (List.length s) in
  let stop' := if (stop <? 0)%Z then Z.max (len + stop) 0 else Z.min stop len in
  firstn (Z.to_nat stop') s.

(** The name as it stands before its length is looked at. *)
Definition clean_name (normalizeNFKD : jsstring -> jsstring) (input : jsstring) : jsstring :=
  let name :=
    trim (collapse_space false
            (replace_class illegal (fun _ => lit "_")
               (remove_if is_control
                  (remove_if is_diacritic (normalizeNFKD input))))) in
  let name := strip_trailing name in
  let name := match name with [] => lit "file" | _ => name end in
  if is_reserved name then name ++ lit "_file" else name.

(** [sanitizeFileName(input, {maxLength})], the replacement being left at
    its default, the underscore, as it is in every call of the repository.
    [normalizeNFKD] is [String.prototype.normalize] with the form NFKD. *)
Definition sanitizeFileName (normalizeNFKD : jsstring -> jsstring)
    (input : value) (maxLength : Z) : jsstring :=
  match input with
  | VStr ((_ :: _) as s) =>
      let name := clean_name normalizeNFKD s in
      if (maxLength <? Z.of_nat (List.length name))%Z then
        let ext := extension name in
        let base := slice0 name (maxLength - Z.of_nat (List.length ext)) in
        base ++ ext
      else name
  | _ => lit "file"
  end.

End FileName.

(* ================================================================== *)
(** * Auxiliary notions for the further properties *)
(* ================================================================== *)

(** The number of double quotes of a text. *)
Definition count_dquote (t : jsstring) : nat := count_occ N.eq_dec t dquote.

(** A data cell of the table, [`<TD>${...}</TD>`]. *)
Definition td_cell (s : jsstring) : jsstring := lit "<TD>" ++ s ++ lit "</TD>".

(** A table row, [<TR>] around its data cells. *)
Definition tr_row (texts : list jsstring) : jsstring :=
  lit "<TR>" ++ concat (map td_cell texts) ++ lit "</TR>".

(** A line of delimited text. *)
Definition text_line (cd rd : jsstring) (texts : list jsstring) : jsstring :=
  join cd texts ++ rd.

(** Booleans, numbers and strings. *)
Definition is_scalar (v : value) : Prop :=
  match typeof v with
  | TBoolean | TNumber | TString => True
  | _ => False
  end.

(** Text made of decimal digits. *)
Definition digits_only (s : jsstring) : Prop := Forall (fun c => is_digit c = true) s.

(** The markup of the table up to the end of its header row. *)
Definition table_head (ttl : jsstring) (labels : list jsstring) : jsstring :=
  (match ttl with
   | [] => []
   | _ => lit "<H1>" ++ ttl ++ lit "</H1>"
   end)
  ++ ListofObj_to_Table.tableStyle (lit "#FFC107")
  ++ lit "<TABLE><TR>" ++ concat (map th_cell labels) ++ lit "</TR>".

(** What the CSV coercion puts after a name/value pair. *)
Definition csv_pair_end (p : jsstring) : jsstring := p ++ lit ";" ++ [LF; CR].

(** One step of reading a decimal numeral. *)
Definition digit_step (acc c : N) : N := (acc * 10 + (c - 48))%N.

(** A stand-in for the browser: every text starting with http: is a URL
    of that protocol, and decoding rejects exactly the texts with a percent
    sign. *)
Definition sample_platform : platform :=
  {| url_protocol := fun s =>
       match s with
       | 104 :: 116 :: 116 :: 112 :: 58 :: _ => Some (lit "http:")
       | _ => None
       end%N;
     decodeURIComponent := fun s =>
       if existsb (N.eqb 37) s then Throw (Thrown (lit "URIError")) else Ok s |}.

(** The bindings a list of cookie entries makes, in the order of the
    entries. *)
Definition cookie_bindings (P : platform) (entries : list jsstring)
    : list (jsstring * value) :=
  flat_map (fun c => match cookie_binding P c with
                     | Some b => [b]
                     | None => []
                     end) entries.

(** What the cookie parser is to make of one entry: the entry binds the
    trimmed text before its first equals sign to the decoded text after
    that sign, or to that text as it is written when decoding throws. *)
Definition entry_binds (P : platform) (entry name : jsstring) (v : value) : Prop :=
  exists pre post : jsstring,
    entry = pre ++ 61%N :: post /\ ~ In 61%N pre /\
    name = trim pre /\
    v = VStr (match decodeURIComponent P post with
              | Ok decoded => decoded
              | Throw _ => post
              end).

(** The text holds the separator of the cookie entries, a semicolon
    followed by a space. *)
Fixpoint has_separator (s : jsstring) : bool :=
  match s with
  | [] => false
  | c :: r =>
      (N.eqb c 59 && match r with
                     | d :: _ => N.eqb d 32
                     | [] => false
                     end)
      || has_separator r
  end.

(** The row the cookie tool shows for the cookie at index [i]. *)
Definition cookie_row (i : nat) (kv : jsstring * value) : list value :=
  [VNum (Z.of_nat i + 1); VStr (fst kv); snd kv].

(** An element that [querySelectorAll("meta[name]")] can select: it has
    attributes, and among them one called name with a value. *)
Definition has_name_attribute (el : value) : Prop :=
  exists attributes a,
    get el (lit "attributes") = Ok attributes /\
    get attributes (lit "name") = Ok a /\
    is_nullish a = false.

(** The element has no attribute called content. *)
Definition lacks_content_attribute (el : value) : Prop :=
  exists attributes a,
    get el (lit "attributes") = Ok attributes /\
    get attributes (lit "content") = Ok a /\
    is_nullish a = true.

(** A meta element with the given attributes, each a name with a value. *)
Definition meta_element (attrs : list (jsstring * jsstring)) : value :=
  VObj [(lit "attributes",
         VObj (map (fun kv => (fst kv, VObj [(lit "name", VStr (fst kv));
                                             (lit "value", VStr (snd kv))])) attrs))].

(** A character that may stand in a file name. *)
Definition name_char (c : char16) : Prop :=
  FileName.is_illegal c = false /\ FileName.is_control c = false
  /\ FileName.is_diacritic c = false.

(** The property [key] of the element is a string. *)
Definition string_property (key : jsstring) (el : value) : Prop :=
  exists s, get el key = Ok (VStr s).

(** What the shared formatter shows for a value that is null, undefined
    or a scalar. *)
Definition plain_text (v : value) : jsstring :=
  if is_nullish v then [] else trim (toString v).

(** Null, undefined, a boolean, a number or a string. *)
Definition is_plain (v : value) : Prop := is_nullish v = true \/ is_scalar v.

(** An element of an attribute list whose name and value, when they can
    be read, are null, undefined, booleans, numbers or strings: the
    values a template literal converts with the conversion of the
    language itself.  The attribute nodes of an element are such. *)
Definition plain_pair (v : value) : Prop :=
  forall x, get v (lit "name") = Ok x \/ get v (lit "value") = Ok x -> is_plain x.

(* ================================================================== *)
(** * Lemmas on strings and on the result monad *)
(* ================================================================== *)

Section StringLemmas.

Variable A : Type.
Variable p : A -> bool.

Lemma dropWhile_head (l : list A) :
  match dropWhile p l with
  | [] => True
  | x :: _ => p x = false
  end.
Proof.
  induction l as [|x r IH]; simpl; [exact I|].
  destruct (p x) eqn:E; [exact IH | exact E].
Qed.

Lemma dropWhile_keep (l : list A) :
  match l with [] => True | x :: _ => p x = false end ->
  dropWhile p l = l.
Proof.
  destruct l as [|x r]; simpl; intros H; [reflexivity|]. now rewrite H.
Qed.

Lemma dropWhile_idem (l : list A) :
  dropWhile p (dropWhile p l) = dropWhile p l.
Proof. apply dropWhile_keep, dropWhile_head. Qed.

Lemma dropWhile_suffix (l : list A) :
  exists w, l = w ++ dropWhile p l.
Proof.
  induction l as [|x r [w IH]]; simpl.
  - now exists [].
  - destruct (p x).
    + exists (x :: w). simpl. now f_equal.
    + now exists [].
Qed.

End StringLemmas.

Lemma trimEnd_prefix (s : jsstring) : exists w, s = trimEnd s ++ w.
Proof.
  unfold trimEnd.
  destruct (dropWhile_suffix _ isWhiteSpace (rev s)) as [w Hw].
  exists (rev w).
  rewrite <- rev_app_distr, <- Hw. symmetry. apply rev_involutive.
Qed.

Lemma trimEnd_idem (s : jsstring) : trimEnd (trimEnd s) = trimEnd s.
Proof.
  unfold trimEnd. rewrite rev_involutive. now rewrite dropWhile_idem.
Qed.

Lemma trimStart_trimEnd (s : jsstring) :
  trimStart s = s -> trimStart (trimEnd s) = trimEnd s.
Proof.
  intros Hs. unfold trimStart in *. apply dropWhile_keep.
  destruct (trimEnd_prefix s) as [w Hw].
  destruct (trimEnd s) as [|x r]; [exact I|].
  pose proof (dropWhile_head _ isWhiteSpace s) as Hh.
  rewrite Hs, Hw in Hh. exact Hh.
Qed.

Lemma trim_idem (s : jsstring) : trim (trim s) = trim s.
Proof.
  unfold trim.
  rewrite trimStart_trimEnd.
  - apply trimEnd_idem.
  - apply dropWhile_idem.
Qed.

(** Text that starts and ends with a double quote is left alone. *)
Lemma trim_quoted (t : jsstring) : trim (quoted t) = quoted t.
Proof.
  unfold trim, quoted, trimStart.
  change (dropWhile isWhiteSpace ([dquote] ++ t ++ [dquote]))
    with ([dquote] ++ t ++ [dquote]).
  unfold trimEnd.
  replace (rev ([dquote] ++ t ++ [dquote])) with (dquote :: rev t ++ [dquote]).
  - change (dropWhile isWhiteSpace (dquote :: rev t ++ [dquote]))
      with (dquote :: rev t ++ [dquote]).
    change (dquote :: rev t ++ [dquote]) with ([dquote] ++ rev t ++ [dquote]).
    rewrite !rev_app_distr, rev_involutive. reflexivity.
  - rewrite !rev_app_distr. simpl. reflexivity.
Qed.

Section ResultLemmas.

Context {A B : Type}.

Lemma mapM_ext (f g : A -> result B) (l : list A) :
  (forall x, In x l -> f x = g x) -> mapM f l = mapM g l.
Proof.
  induction l as [|x r IH]; intros H; simpl; [reflexivity|].
  rewrite (H x (or_introl eq_refl)).
  rewrite IH; [reflexivity|]. intros y Hy. apply H. now right.
Qed.

Lemma mapM_length (f : A -> result B) (l : list A) (ys : list B) :
  mapM f l = Ok ys -> List.length ys = List.length l.
Proof.
  revert ys. induction l as [|x r IH]; simpl; intros ys H.
  - now inversion H.
  - destruct (f x) as [y|e]; simpl in H; [|discriminate].
    destruct (mapM f r) as [ys'|e]; simpl in H; [|discriminate].
    inversion H; subst. simpl. f_equal. now apply IH.
Qed.

Lemma mapM_nth_error (f : A -> result B) (l : list A) (ys : list B) :
  mapM f l = Ok ys ->
  forall i x, nth_error l i = Some x ->
  exists y, nth_error ys i = Some y /\ f x = Ok y.
Proof.
  revert ys. induction l as [|a r IH]; simpl; intros ys H i x Hi.
  - destruct i; discriminate.
  - destruct (f a) as [y|e] eqn:Fa; simpl in H; [|discriminate].
    destruct (mapM f r) as [ys'|e]; simpl in H; [|discriminate].
    inversion H; subst. destruct i as [|i]; simpl in *.
    + inversion Hi; subst. now exists y.
    + now apply IH.
Qed.

Lemma mapM_In (f : A -> result B) (l : list A) (ys : list B) :
  mapM f l = Ok ys ->
  forall y, In y ys -> exists x, In x l /\ f x = Ok y.
Proof.
  revert ys. induction l as [|a r IH]; simpl; intros ys H y Hy.
  - inversion H; subst. destruct Hy.
  - destruct (f a) as [b|e] eqn:Fa; simpl in H; [|discriminate].
    destruct (mapM f r) as [ys'|e]; simpl in H; [|discriminate].
    inversion H; subst. destruct Hy as [<-|Hy].
    + exists a. auto.
    + destruct (IH ys' eq_refl y Hy) as [x [Hx Fx]]. exists x. auto.
Qed.

Lemma mapM_succeeds (f : A -> result B) (l : list A) :
  (forall x, In x l -> succeeds (f x)) -> succeeds (mapM f l).
Proof.
  induction l as [|a r IH]; intros H; simpl.
  - now exists [].
  - destruct (H a (or_introl eq_refl)) as [y ->]. simpl.
    destruct IH as [ys ->]; [intros x Hx; apply H; now right|].
    simpl. now eexists.
Qed.

End ResultLemmas.

(* ================================================================== *)
(** * The model on the examples of the specification *)
(* ================================================================== *)

Example split_dotted_path :
  split dot (lit "a.b..c") = [lit "a"; lit "b"; []; lit "c"]
  /\ split dot [] = [[]].
Proof. split; reflexivity. Qed.

Example formatValue_pair_list :
  ListofObj_Base.formatValue
    (VArr [VObj [(lit "name", VStr (lit "id")); (lit "value", VStr (lit "7"))];
           VObj [(lit "name", VStr (lit "class")); (lit "value", VStr (lit "x"))]])
  = Ok (lit "id: 7; class: x").
Proof. reflexivity. Qed.

Example formatCSVcellvalues_pair_list :
  ListofObj_to_DelimitedText.formatCSVcellvalues
    (VArr [VObj [(lit "name", VStr (lit "id")); (lit "value", VStr (lit "7"))];
           VObj [(lit "name", VStr (lit "class")); (lit "value", VStr (lit "x"))]])
  = Ok (lit "id: 7;" ++ [LF; CR] ++ lit "class: x;" ++ [LF; CR]).
Proof. reflexivity. Qed.

Example buildRows_example :
  ListofObj_Base.buildRows (ListofObj_Base.new label_schema example_collection) = Ok example_rows.
Proof. reflexivity. Qed.

Example render_csv_example :
  ListofObj_to_DelimitedText.render
    (ListofObj_to_DelimitedText.new [(lit "X", RPath (lit "x"))]
       [VObj [(lit "x", VStr (lit "a,b"))]] csv_options)
  = Ok (lit "No.,X" ++ [CR; LF] ++ lit "1," ++ quoted (lit "a,b") ++ [CR; LF]).
Proof. reflexivity. Qed.

Example render_display_example :
  ListofObj_to_DelimitedText.render
    (ListofObj_to_DelimitedText.setTitle (lit "Links")
       (ListofObj_to_DelimitedText.new label_schema [item_named (VStr (lit " A "))]
          ListofObj_to_DelimitedText.no_options))
  = Ok (lit "<STRONG>Links</STRONG><BR>No.,Label<BR>1,A<BR>").
Proof. reflexivity. Qed.

Example resolvePath_examples :
  resolvePath nested_item (lit "a.b") = Ok (VStr (lit "deep"))
  /\ resolvePath nested_item (lit "a.b.length") = Ok (VNum 4)
  /\ resolvePath nested_item (lit "missing.b") = Ok VUndefined
  /\ resolvePath nested_item (lit "n.b") = Ok VNull
  /\ resolvePath VNull (lit "a") = Ok VNull.
Proof. repeat split; reflexivity. Qed.

(* ================================================================== *)
(** * The CSV encoder *)
(* ================================================================== *)

Lemma test_class_needs_quoting (t : jsstring) :
  test_class [dquote; comma; LF] t = true <-> needs_quoting t.
Proof.
  unfold test_class, needs_quoting. rewrite existsb_exists. split.
  - intros [c [Hin Hc]]. simpl in Hc.
    rewrite !orb_true_iff, !N.eqb_eq in Hc.
    destruct Hc as [->|[->|[->|F]]]; auto. discriminate.
  - intros H.
    destruct H as [H|[H|H]]; eexists; (split; [exact H|]); reflexivity.
Qed.

Lemma replace_all_doubled (t : jsstring) :
  replace_all dquote [dquote; dquote] t = doubled t.
Proof.
  unfold replace_all. induction t as [|c r IH]; simpl; [reflexivity|].
  rewrite IH. now destruct (N.eqb c dquote).
Qed.

Lemma escapeForCSV_unsafe (t : jsstring) :
  needs_quoting t -> ListofObj_to_DelimitedText.escapeForCSV t = quoted (doubled t).
Proof.
  intros H. unfold ListofObj_to_DelimitedText.escapeForCSV.
  apply test_class_needs_quoting in H. rewrite H.
  now rewrite replace_all_doubled.
Qed.

Lemma escapeForCSV_safe (t : jsstring) :
  ~ needs_quoting t -> ListofObj_to_DelimitedText.escapeForCSV t = t.
Proof.
  intros H. unfold ListofObj_to_DelimitedText.escapeForCSV.
  destruct (test_class [dquote; comma; LF] t) eqn:E; [|reflexivity].
  exfalso. apply H. now apply test_class_needs_quoting.
Qed.

(** C7: text holding a double quote, a comma or a newline is returned with
    every double quote doubled and the whole wrapped in double quotes; any
    other text is returned unchanged; and the text a, quote, b, comma, c
    becomes quote, a, quote, quote, b, comma, c, quote. *)
Theorem escapeForCSV_contract (t : jsstring) :
  (needs_quoting t -> ListofObj_to_DelimitedText.escapeForCSV t = quoted (doubled t)) /\
  (~ needs_quoting t -> ListofObj_to_DelimitedText.escapeForCSV t = t) /\
  ListofObj_to_DelimitedText.escapeForCSV (lit "a" ++ [dquote] ++ lit "b,c")
  = [dquote] ++ lit "a" ++ [dquote; dquote] ++ lit "b,c" ++ [dquote].
Proof.
  split; [apply escapeForCSV_unsafe|].
  split; [apply escapeForCSV_safe|]. reflexivity.
Qed.

Lemma escapeForCSV_contract_witness :
  (needs_quoting (lit "x,y") /\
   ListofObj_to_DelimitedText.escapeForCSV (lit "x,y") = quoted (doubled (lit "x,y"))) /\
  (~ needs_quoting (lit "plain") /\
   ListofObj_to_DelimitedText.escapeForCSV (lit "plain") = lit "plain").
Proof.
  assert (H1 : needs_quoting (lit "x,y")).
  { right; left. simpl. auto. }
  assert (H2 : ~ needs_quoting (lit "plain")).
  { unfold needs_quoting. vm_compute. intuition discriminate. }
  split; (split; [assumption|]).
  - exact (proj1 (escapeForCSV_contract (lit "x,y")) H1).
  - exact (proj1 (proj2 (escapeForCSV_contract (lit "plain"))) H2).
Defined.

(** C9: on text that holds no double quote, comma or newline, encoding
    twice gives the same text as encoding once. *)
Theorem escapeForCSV_idempotent_on_safe_text (t : jsstring) :
  ~ needs_quoting t ->
  ListofObj_to_DelimitedText.escapeForCSV (ListofObj_to_DelimitedText.escapeForCSV t)
  = ListofObj_to_DelimitedText.escapeForCSV t.
Proof.
  intros H. now rewrite !(escapeForCSV_safe t H).
Qed.

Lemma escapeForCSV_idempotent_witness :
  ~ needs_quoting (lit "plain text") /\
  ListofObj_to_DelimitedText.escapeForCSV (ListofObj_to_DelimitedText.escapeForCSV (lit "plain text"))
  = ListofObj_to_DelimitedText.escapeForCSV (lit "plain text").
Proof.
  assert (H : ~ needs_quoting (lit "plain text")).
  { unfold needs_quoting. vm_compute. intuition discriminate. }
  split; [exact H|].
  exact (escapeForCSV_idempotent_on_safe_text (lit "plain text") H).
Defined.

(* ================================================================== *)
(** * The CSV cell path *)
(* ================================================================== *)

Lemma CSVlistAttributes_item_LF (arr : value) (i : nat) (p : jsstring) :
  ListofObj_to_DelimitedText.CSVlistAttributes_item arr i = Ok p -> In LF p.
Proof.
  unfold ListofObj_to_DelimitedText.CSVlistAttributes_item. intros H.
  destruct (get arr (of_nat i)) as [e|]; simpl in H; [|discriminate].
  destruct (get e (lit "name")) as [n|]; simpl in H; [|discriminate].
  destruct (get e (lit "value")) as [x|]; simpl in H; [|discriminate].
  inversion H; subst. apply in_or_app. right. simpl. do 2 right.
  apply in_or_app. right. simpl. auto.
Qed.

(** The text of an attribute list is empty or needs quoting. *)
Lemma CSVlistAttributes_text (arr : value) (s : jsstring) :
  ListofObj_to_DelimitedText.CSVlistAttributes arr = Ok s -> s = [] \/ needs_quoting s.
Proof.
  unfold ListofObj_to_DelimitedText.CSVlistAttributes. intros H.
  destruct (get arr (lit "length")) as [len|]; simpl in H; [|discriminate].
  destruct (mapM _ _) as [pieces|] eqn:M; simpl in H; [|discriminate].
  inversion H; subst. destruct pieces as [|p ps]; [now left|right].
  destruct (mapM_In _ _ _ M p (or_introl eq_refl)) as [i [_ Hi]].
  apply CSVlistAttributes_item_LF in Hi.
  unfold needs_quoting. do 2 right. simpl. apply in_or_app. now left.
Qed.

(** The formatter that runs after the encoder finds nothing to trim. *)
Lemma escaped_text_trimmed (v : value) (s : jsstring) :
  ListofObj_to_DelimitedText.formatCSVcellvalues v = Ok s ->
  trim (ListofObj_to_DelimitedText.escapeForCSV s) = ListofObj_to_DelimitedText.escapeForCSV s.
Proof.
  intros H.
  destruct (test_class [dquote; comma; LF] s) eqn:E.
  - apply test_class_needs_quoting in E.
    rewrite (escapeForCSV_unsafe s E). apply trim_quoted.
  - assert (Hsafe : ~ needs_quoting s).
    { intros Hq. apply test_class_needs_quoting in Hq. congruence. }
    rewrite (escapeForCSV_safe s Hsafe).
    unfold ListofObj_to_DelimitedText.formatCSVcellvalues in H.
    destruct (typeof v);
      try (inversion H; subst; apply trim_idem).
    destruct (CSVlistAttributes_text v s H) as [-> | Hq];
      [reflexivity | contradiction].
Qed.

Lemma formatValue_string (s : jsstring) :
  ListofObj_Base.formatValue (VStr s) = Ok (trim s).
Proof. reflexivity. Qed.

Lemma cell_fmap (v : value) :
  ListofObj_to_DelimitedText.cell v
  = fmap ListofObj_to_DelimitedText.escapeForCSV (ListofObj_to_DelimitedText.formatCSVcellvalues v).
Proof.
  unfold ListofObj_to_DelimitedText.cell, fmap.
  destruct (ListofObj_to_DelimitedText.formatCSVcellvalues v) as [s|e] eqn:E; simpl;
    [|reflexivity].
  rewrite formatValue_string. f_equal. now apply (escaped_text_trimmed v).
Qed.

(** C2: in the CSV pipeline the text of a cell is the encoder applied to
    the display text the value is coerced to; the formatter called on the
    encoder's output changes nothing, and a value whose coercion throws
    gives no cell. *)
Theorem csv_cell_is_escaped_display_text (v : value) :
  ListofObj_to_DelimitedText.cell v
  = fmap ListofObj_to_DelimitedText.escapeForCSV (ListofObj_to_DelimitedText.formatCSVcellvalues v)
  /\ match ListofObj_to_DelimitedText.formatCSVcellvalues v with
     | Ok s => ListofObj_Base.formatValue (VStr (ListofObj_to_DelimitedText.escapeForCSV s))
               = Ok (ListofObj_to_DelimitedText.escapeForCSV s)
     | Throw e => ListofObj_to_DelimitedText.cell v = Throw e
     end.
Proof.
  split; [apply cell_fmap|].
  destruct (ListofObj_to_DelimitedText.formatCSVcellvalues v) as [s|e] eqn:E.
  - rewrite formatValue_string. f_equal. now apply (escaped_text_trimmed v).
  - unfold ListofObj_to_DelimitedText.cell. now rewrite E.
Qed.

(* ================================================================== *)
(** * The delimited-text renderer *)
(* ================================================================== *)

(** C3, as stated, fails: with the delimiters of a plain-text display the
    renderer still emits the cell a,b inside double quotes, where the
    formatter alone gives a,b. *)
Lemma render_escapes_whatever_the_delimiters :
  ~ (forall (s : schema_t) (c : list value) (o : ListofObj_to_DelimitedText.options),
        ListofObj_to_DelimitedText.render (ListofObj_to_DelimitedText.new s c o)
        = ClassSource.render (ListofObj_to_DelimitedText.new s c o)).
Proof.
  intros H.
  specialize (H label_schema [item_named (VStr (lit "a,b"))] display_options).
  vm_compute in H. discriminate H.
Qed.

(** C3, amended: for every schema, collection, title and choice of
    delimiters the renderer emits the title block, the header labels
    joined as they are, and then every body cell as the CSV encoder
    applied to the CSV coercion of the value; the delimiters only join. *)
Theorem render_applies_csv_pipeline
    (s : schema_t) (c : list value) (o : ListofObj_to_DelimitedText.options) (ttl : jsstring) :
  let cd := ListofObj_to_DelimitedText.nullish_or (ListofObj_to_DelimitedText.opt_columnDelimiter o) (lit ",") in
  let rd := ListofObj_to_DelimitedText.nullish_or (ListofObj_to_DelimitedText.opt_rowDelimiter o) (lit "<BR>") in
  ListofObj_to_DelimitedText.render (ListofObj_to_DelimitedText.setTitle ttl (ListofObj_to_DelimitedText.new s c o))
  = (rows <- ListofObj_Base.buildRows (ListofObj_Base.new s c) ;;
     lines <- mapM (fun row =>
                cells <- mapM (fun v => fmap ListofObj_to_DelimitedText.escapeForCSV
                                          (ListofObj_to_DelimitedText.formatCSVcellvalues v)) row ;;
                Ok (join cd cells ++ rd)) rows ;;
     Ok (ListofObj_to_DelimitedText.title_block ttl rd
         ++ join cd (lit "No." :: map fst s) ++ rd ++ concat lines)).
Proof.
  intros cd rd. unfold ListofObj_to_DelimitedText.render.
  set (this := ListofObj_to_DelimitedText.setTitle ttl (ListofObj_to_DelimitedText.new s c o)).
  change (ListofObj_Base.buildRows (ListofObj_to_DelimitedText.base this))
    with (ListofObj_Base.buildRows (ListofObj_Base.new s c)).
  destruct (ListofObj_Base.buildRows (ListofObj_Base.new s c)) as [rows|e]; [|reflexivity].
  cbn [bind].
  assert (E : mapM (ListofObj_to_DelimitedText.row_line this) rows
              = mapM (fun row =>
                  cells <- mapM (fun v => fmap ListofObj_to_DelimitedText.escapeForCSV
                                   (ListofObj_to_DelimitedText.formatCSVcellvalues v)) row ;;
                  Ok (join cd cells ++ rd)) rows).
  { apply mapM_ext. intros row _. unfold ListofObj_to_DelimitedText.row_line.
    rewrite (mapM_ext ListofObj_to_DelimitedText.cell
               (fun v => fmap ListofObj_to_DelimitedText.escapeForCSV
                           (ListofObj_to_DelimitedText.formatCSVcellvalues v)));
      [reflexivity|].
    intros v _. apply cell_fmap. }
  rewrite E. clear E. destruct (mapM _ rows) as [lines|e']; [|reflexivity].
  cbn [bind]. f_equal. unfold ListofObj_to_DelimitedText.header_line.
  rewrite <- !app_assoc. reflexivity.
Qed.

(** C1, on the code: the shared formatter gives the empty string for null
    and undefined, and so does the stand-alone renderer; but the CSV cell
    path throws on null and prints the word undefined for undefined, so
    both sinks of the toolset fail on an item whose attribute is null. *)
Theorem omitted_attribute_in_csv_cell :
  ListofObj_Base.formatValue VNull = Ok [] /\
  ListofObj_Base.formatValue VUndefined = Ok [] /\
  ClassSource.render
    (ListofObj_to_DelimitedText.new label_schema [item_named VNull; VObj []] csv_options)
  = Ok (lit "No.,Label" ++ [CR; LF] ++ lit "1," ++ [CR; LF] ++ lit "2," ++ [CR; LF]) /\
  ListofObj_to_DelimitedText.cell VNull = Throw TypeError /\
  ListofObj_to_DelimitedText.cell VUndefined = Ok (lit "undefined") /\
  ListofObj_to_DelimitedText.render
    (ListofObj_to_DelimitedText.new label_schema [item_named VNull] csv_options)
  = Throw TypeError /\
  ListofObj_to_DelimitedText.render
    (ListofObj_to_DelimitedText.new label_schema [VObj []] csv_options)
  = Ok (lit "No.,Label" ++ [CR; LF] ++ lit "1,undefined" ++ [CR; LF]) /\
  (forall url,
      ListofObj_to_Table.render url (ListofObj_to_Table.new label_schema [item_named VNull])
        (lit "download.csv")
      = Throw TypeError).
Proof.
  repeat split; reflexivity.
Qed.

(* ================================================================== *)
(** * The path resolver *)
(* ================================================================== *)

Lemma truthy_not_nullish (v : value) : truthy v = true -> is_nullish v = false.
Proof. destruct v; simpl; congruence. Qed.


Lemma get_succeeds (v : value) (key : jsstring) :
  is_nullish v = false -> succeeds (get v key).
Proof.
  unfold succeeds. destruct v; simpl; intros H; try discriminate;
    try (destruct (JsString.eqb key (lit "length")));
    try (destruct (array_index key)); eexists; reflexivity.
Qed.

Lemma and_get_succeeds (acc : value) (key : jsstring) :
  succeeds (and_get acc key).
Proof.
  unfold and_get. destruct (truthy acc) eqn:T.
  - apply get_succeeds. now apply truthy_not_nullish.
  - now exists acc.
Qed.

Lemma reduceM_succeeds {A B} (f : A -> B -> result A) :
  (forall a b, succeeds (f a b)) ->
  forall l init, succeeds (reduceM f l init).
Proof.
  intros Hf. induction l as [|x r IH]; intros init; simpl.
  - now exists init.
  - destruct (Hf init x) as [a ->]. simpl. apply IH.
Qed.






Lemma resolvePath_succeeds (root : value) (path : jsstring) :
  succeeds (resolvePath root path).
Proof. apply reduceM_succeeds, and_get_succeeds. Qed.







(* ================================================================== *)
(** * The row builder *)
(* ================================================================== *)

Lemma nth_error_seq_lt (a n i : nat) :
  i < n -> nth_error (seq a n) i = Some (a + i).
Proof.
  revert a i. induction n as [|n IH]; intros a i H; [lia|].
  destruct i as [|i]; simpl.
  - f_equal. lia.
  - rewrite IH by lia. f_equal. lia.
Qed.

Lemma resolveField_succeeds (s : schema_t) (c : list value) (item : value) (r : resolver) :
  resolvers_return s c -> In r (map snd s) -> In item c ->
  succeeds (ListofObj_Base.resolveField item r).
Proof.
  intros H Hr Hi. destruct r as [path|f]; simpl.
  - apply resolvePath_succeeds.
  - now apply H.
Qed.

Lemma buildRows_succeeds (s : schema_t) (c : list value) :
  resolvers_return s c -> succeeds (ListofObj_Base.buildRows (ListofObj_Base.new s c)).
Proof.
  intros H. unfold ListofObj_Base.buildRows. simpl. apply mapM_succeeds.
  intros i Hi. apply in_seq in Hi.
  destruct (mapM_succeeds (ListofObj_Base.resolveField (nth i c VUndefined)) (map snd s))
    as [row Hrow].
  - intros r Hr. apply (resolveField_succeeds s c); trivial.
    apply nth_In. lia.
  - rewrite Hrow. simpl. now eexists.
Qed.

Lemma buildRows_shape (s : schema_t) (c : list value) (rows : list (list value)) :
  ListofObj_Base.buildRows (ListofObj_Base.new s c) = Ok rows ->
  List.length rows = List.length c /\
  forall i, i < List.length c ->
    exists cells,
      nth_error rows i = Some (VNum (Z.of_nat i + 1) :: cells) /\
      List.length cells = List.length s.
Proof.
  unfold ListofObj_Base.buildRows. simpl. intros H. split.
  - rewrite (mapM_length _ _ _ H). apply length_seq.
  - intros i Hi.
    destruct (mapM_nth_error _ _ _ H i i) as [row [Hrow Hf]].
    { now rewrite nth_error_seq_lt. }
    destruct (mapM _ (map snd s)) as [cells|e] eqn:M; simpl in Hf;
      [|discriminate].
    inversion Hf; subst. exists cells. split; [exact Hrow|].
    rewrite (mapM_length _ _ _ M). apply length_map.
Qed.

(** C6: the row builder returns whenever the functions of the schema do,
    and what it returns has one row per item of the collection, none
    dropped, the row at index i starting with the ordinal i + 1 and
    holding one value per schema entry after it. *)
Theorem buildRows_one_numbered_row_per_item (s : schema_t) (c : list value) :
  (resolvers_return s c -> succeeds (ListofObj_Base.buildRows (ListofObj_Base.new s c))) /\
  (forall rows,
      ListofObj_Base.buildRows (ListofObj_Base.new s c) = Ok rows ->
      List.length rows = List.length c /\
      forall i, i < List.length c ->
        exists cells,
          nth_error rows i = Some (VNum (Z.of_nat i + 1) :: cells) /\
          List.length cells = List.length s).
Proof.
  split; [apply buildRows_succeeds | apply buildRows_shape].
Qed.

Lemma label_schema_returns (c : list value) : resolvers_return label_schema c.
Proof.
  intros f item Hf _. simpl in Hf. destruct Hf as [Hf|[]]. discriminate Hf.
Qed.

Lemma buildRows_witness :
  resolvers_return label_schema example_collection /\
  succeeds (ListofObj_Base.buildRows (ListofObj_Base.new label_schema example_collection)) /\
  ListofObj_Base.buildRows (ListofObj_Base.new label_schema example_collection) = Ok example_rows /\
  List.length example_rows = List.length example_collection /\
  (forall i, i < List.length example_collection ->
     exists cells,
       nth_error example_rows i = Some (VNum (Z.of_nat i + 1) :: cells) /\
       List.length cells = List.length label_schema).
Proof.
  pose proof (buildRows_one_numbered_row_per_item label_schema example_collection)
    as [Hret Hshape].
  split; [apply label_schema_returns|].
  split; [exact (Hret (label_schema_returns example_collection))|].
  split; [reflexivity|].
  exact (Hshape example_rows eq_refl).
Defined.

(* ================================================================== *)
(** * The header row *)
(* ================================================================== *)

Lemma bind_Ok_inv {A B} (m : result A) (k : A -> result B) (b : B) :
  bind m k = Ok b -> exists a, m = Ok a /\ k a = Ok b.
Proof.
  destruct m as [a|e]; simpl; intros H; [|discriminate]. now exists a.
Qed.

(** Peel the first statement off a computation known to return. *)
Ltac bind_inv H x Hx :=
  apply bind_Ok_inv in H; destruct H as [x [Hx H]].

Lemma Ok_pair_inv {A B} (a a' : A) (b b' : B) :
  Ok (a, b) = Ok (a', b') -> a = a' /\ b = b'.
Proof. intros H. inversion H. now split. Qed.


(** C8: the header the constructor stores is the label No. followed by
    the labels of the schema in schema order; the delimited-text renderer
    emits exactly these labels joined by the column delimiter as the line
    after the title block, and the table renderer emits them as the header
    cells of the table, No. first.  The schema with the one label Label
    gives the header No., Label. *)
Theorem header_is_ordinal_then_labels (s : schema_t) (c : list value) :
  ListofObj_Base.header (ListofObj_Base.new s c) = lit "No." :: map fst s /\
  (forall o ttl out,
      ListofObj_to_DelimitedText.render (ListofObj_to_DelimitedText.setTitle ttl (ListofObj_to_DelimitedText.new s c o)) = Ok out ->
      let this := ListofObj_to_DelimitedText.new s c o in
      exists body,
        out = ListofObj_to_DelimitedText.title_block ttl (ListofObj_to_DelimitedText.rowDelimiter this)
              ++ join (ListofObj_to_DelimitedText.columnDelimiter this) (lit "No." :: map fst s)
              ++ ListofObj_to_DelimitedText.rowDelimiter this ++ body) /\
  (forall url ttl fname html t',
      ListofObj_to_Table.render url (ListofObj_to_Table.setTitle ttl (ListofObj_to_Table.new s c)) fname = Ok (html, t') ->
      exists pre body,
        html = pre ++ lit "<TABLE><TR>" ++ th_cell (lit "No.")
               ++ concat (map th_cell (map fst s)) ++ lit "</TR>" ++ body) /\
  ListofObj_Base.header (ListofObj_Base.new label_schema c) = [lit "No."; lit "Label"].
Proof.
  split; [reflexivity|]. split; [|split; [|reflexivity]].
  - intros o ttl out H this. unfold ListofObj_to_DelimitedText.render in H.
    bind_inv H rows Hrows. bind_inv H lines Hlines.
    inversion H; subst. exists (concat lines).
    unfold ListofObj_to_DelimitedText.header_line. rewrite <- !app_assoc. reflexivity.
  - intros url ttl fname html t' H. unfold ListofObj_to_Table.render in H.
    bind_inv H rows Hrows. bind_inv H trs Htrs. bind_inv H csv Hcsv.
    apply Ok_pair_inv in H. destruct H as [H _]. rewrite <- H.
    set (ttl_block := match ListofObj_Base.title _ with [] => [] | _ => _ end).
    exists (ttl_block ++ ListofObj_to_Table.tableStyle (lit "#FFC107")).
    exists (concat trs ++ lit "</TABLE><BR>"
            ++ ListofObj_to_Table.createCSVBloblink url csv fname).
    unfold ListofObj_to_Table.header_cells.
    change (ListofObj_Base.header (ListofObj_to_Table.base (ListofObj_to_Table.setTitle ttl (ListofObj_to_Table.new s c))))
      with ([lit "No."] ++ map fst s).
    rewrite map_app, concat_app. unfold th_cell.
    cbn [map concat]. rewrite app_nil_r.
    rewrite <- !app_assoc. reflexivity.
Qed.

Lemma header_witness :
  let c := [item_named (VStr (lit "A"))] in
  (ListofObj_to_DelimitedText.render
     (ListofObj_to_DelimitedText.setTitle [] (ListofObj_to_DelimitedText.new label_schema c csv_options))
   = Ok (lit "No.,Label" ++ [CR; LF] ++ lit "1,A" ++ [CR; LF]) /\
   exists body,
     lit "No.,Label" ++ [CR; LF] ++ lit "1,A" ++ [CR; LF]
     = ListofObj_to_DelimitedText.title_block [] [CR; LF]
       ++ join (lit ",") (lit "No." :: map fst label_schema) ++ [CR; LF] ++ body) /\
  (exists html t',
     ListofObj_to_Table.render (fun _ => lit "blob:1") (ListofObj_to_Table.setTitle [] (ListofObj_to_Table.new label_schema c))
       (lit "download.csv") = Ok (html, t') /\
     exists pre body,
       html = pre ++ lit "<TABLE><TR>" ++ th_cell (lit "No.")
              ++ concat (map th_cell (map fst label_schema)) ++ lit "</TR>" ++ body).
Proof.
  intros c.
  destruct (header_is_ordinal_then_labels label_schema c) as [_ [H2 [H3 _]]].
  split.
  - split; [reflexivity|]. exact (H2 csv_options [] _ eq_refl).
  - destruct (ListofObj_to_Table.render (fun _ => lit "blob:1")
                (ListofObj_to_Table.setTitle [] (ListofObj_to_Table.new label_schema c))
                (lit "download.csv")) as [[html t']|e] eqn:E.
    + exists html, t'. split; [reflexivity|].
      exact (H3 (fun _ => lit "blob:1") [] (lit "download.csv") html t' E).
    + vm_compute in E. discriminate E.
Defined.

(* ================================================================== *)
(** * The table's CSV sibling *)
(* ================================================================== *)

Lemma render_with_title (ttl : jsstring) (this : ListofObj_to_DelimitedText.t) :
  ListofObj_to_DelimitedText.render (ListofObj_to_DelimitedText.setTitle ttl this)
  = fmap (fun text => ListofObj_to_DelimitedText.title_block ttl (ListofObj_to_DelimitedText.rowDelimiter this) ++ text)
      (ListofObj_to_DelimitedText.render (ListofObj_to_DelimitedText.setTitle [] this)).
Proof.
  unfold ListofObj_to_DelimitedText.render, fmap.
  change (ListofObj_Base.buildRows (ListofObj_to_DelimitedText.base (ListofObj_to_DelimitedText.setTitle ttl this)))
    with (ListofObj_Base.buildRows (ListofObj_to_DelimitedText.base this)).
  change (ListofObj_Base.buildRows (ListofObj_to_DelimitedText.base (ListofObj_to_DelimitedText.setTitle [] this)))
    with (ListofObj_Base.buildRows (ListofObj_to_DelimitedText.base this)).
  destruct (ListofObj_Base.buildRows (ListofObj_to_DelimitedText.base this)) as [rows|e];
    [|reflexivity].
  cbn [bind].
  change (mapM (ListofObj_to_DelimitedText.row_line (ListofObj_to_DelimitedText.setTitle ttl this)) rows)
    with (mapM (ListofObj_to_DelimitedText.row_line (ListofObj_to_DelimitedText.setTitle [] this)) rows).
  destruct (mapM _ rows) as [lines|e]; [|reflexivity].
  cbn [bind]. f_equal.
  change (ListofObj_to_DelimitedText.header_line (ListofObj_to_DelimitedText.setTitle ttl this))
    with (ListofObj_to_DelimitedText.header_line (ListofObj_to_DelimitedText.setTitle [] this)).
  change (ListofObj_Base.title (ListofObj_to_DelimitedText.base (ListofObj_to_DelimitedText.setTitle ttl this)))
    with ttl.
  change (ListofObj_to_DelimitedText.rowDelimiter (ListofObj_to_DelimitedText.setTitle ttl this))
    with (ListofObj_to_DelimitedText.rowDelimiter this).
  change (ListofObj_to_DelimitedText.title_block
            (ListofObj_Base.title (ListofObj_to_DelimitedText.base (ListofObj_to_DelimitedText.setTitle [] this)))
            (ListofObj_to_DelimitedText.rowDelimiter (ListofObj_to_DelimitedText.setTitle [] this)))
    with (@nil char16).
  cbn [app]. now rewrite <- app_assoc.
Qed.

Lemma Table_render_inv (url : jsstring -> jsstring) (this : ListofObj_to_Table.t)
    (fname html : jsstring) (t' : ListofObj_to_Table.t) :
  ListofObj_to_Table.render url this fname = Ok (html, t') ->
  ListofObj_to_DelimitedText.render
    (ListofObj_to_DelimitedText.new (ListofObj_Base.schema (ListofObj_to_Table.base this))
       (ListofObj_Base.collection (ListofObj_to_Table.base this)) csv_options)
  = Ok (ListofObj_to_Table.objCSV t').
Proof.
  unfold ListofObj_to_Table.render. intros H.
  bind_inv H rows Hrows. bind_inv H trs Htrs. bind_inv H csv Hcsv.
  apply Ok_pair_inv in H. destruct H as [_ <-]. exact Hcsv.
Qed.

Lemma Table_render_needs_sibling (url : jsstring -> jsstring)
    (this : ListofObj_to_Table.t) (fname : jsstring) (e : error) :
  ListofObj_to_DelimitedText.render
    (ListofObj_to_DelimitedText.new (ListofObj_Base.schema (ListofObj_to_Table.base this))
       (ListofObj_Base.collection (ListofObj_to_Table.base this)) csv_options)
  = Throw e ->
  exists e', ListofObj_to_Table.render url this fname = Throw e'.
Proof.
  intros H. unfold ListofObj_to_Table.render.
  destruct (ListofObj_Base.buildRows _) as [rows|e1]; [|now exists e1].
  cbn [bind].
  destruct (mapM ListofObj_to_Table.row_cells rows) as [trs|e2]; [|now exists e2].
  cbn [bind]. fold csv_options. rewrite H. now exists e.
Qed.

(** C5: when the table renderer returns, the CSV text it stored for the
    download link is the text a stand-alone delimited-text renderer gives
    for the same schema and collection with the comma and CRLF
    delimiters; a title set on the stand-alone renderer only puts its
    title block in front of that same header and body; and when the
    stand-alone renderer throws, the table renderer returns nothing, so no
    sibling text exists that could differ. *)
Theorem csv_sibling_equals_standalone
    (url : jsstring -> jsstring) (s : schema_t) (c : list value)
    (ttl fname : jsstring) :
  (forall html t',
     ListofObj_to_Table.render url
       (ListofObj_to_Table.setTitle ttl (ListofObj_to_Table.new s c)) fname
     = Ok (html, t') ->
     ListofObj_to_DelimitedText.render (ListofObj_to_DelimitedText.new s c csv_options)
     = Ok (ListofObj_to_Table.objCSV t') /\
     forall ttl',
       ListofObj_to_DelimitedText.render
         (ListofObj_to_DelimitedText.setTitle ttl'
            (ListofObj_to_DelimitedText.new s c csv_options))
       = Ok (ListofObj_to_DelimitedText.title_block ttl' [CR; LF]
             ++ ListofObj_to_Table.objCSV t')) /\
  (forall e,
     ListofObj_to_DelimitedText.render (ListofObj_to_DelimitedText.new s c csv_options)
     = Throw e ->
     exists e',
       ListofObj_to_Table.render url
         (ListofObj_to_Table.setTitle ttl (ListofObj_to_Table.new s c)) fname
       = Throw e').
Proof.
  split.
  - intros html t' H. apply Table_render_inv in H.
    change (ListofObj_to_DelimitedText.render
              (ListofObj_to_DelimitedText.new s c csv_options)
            = Ok (ListofObj_to_Table.objCSV t')) in H.
    split; [exact H|]. intros ttl'. rewrite render_with_title.
    change (ListofObj_to_DelimitedText.setTitle []
              (ListofObj_to_DelimitedText.new s c csv_options))
      with (ListofObj_to_DelimitedText.new s c csv_options).
    rewrite H. reflexivity.
  - intros e H. now apply (Table_render_needs_sibling url _ fname e).
Qed.

Lemma csv_sibling_witness :
  let url := fun _ : jsstring => lit "blob:1" in
  let c := [item_named (VStr (lit "a,b")); item_named (VNum 7)] in
  let csv := lit "No.,Label" ++ [CR; LF] ++ lit "1," ++ quoted (lit "a,b") ++ [CR; LF]
             ++ lit "2,7" ++ [CR; LF] in
  (exists html t',
     ListofObj_to_Table.render url
       (ListofObj_to_Table.setTitle (lit "Links") (ListofObj_to_Table.new label_schema c))
       (lit "download.csv") = Ok (html, t') /\
     ListofObj_to_Table.objCSV t' = csv /\
     ListofObj_to_DelimitedText.render
       (ListofObj_to_DelimitedText.new label_schema c csv_options)
     = Ok (ListofObj_to_Table.objCSV t')) /\
  (ListofObj_to_DelimitedText.render
     (ListofObj_to_DelimitedText.new label_schema [item_named VNull] csv_options)
   = Throw TypeError /\
   exists e',
     ListofObj_to_Table.render url
       (ListofObj_to_Table.setTitle (lit "Links")
          (ListofObj_to_Table.new label_schema [item_named VNull]))
       (lit "download.csv") = Throw e').
Proof.
  intros url c csv. split.
  - destruct (ListofObj_to_Table.render url
                (ListofObj_to_Table.setTitle (lit "Links")
                   (ListofObj_to_Table.new label_schema c))
                (lit "download.csv")) as [[html t']|e] eqn:E.
    + exists html, t'. split; [reflexivity|].
      split; [vm_compute in E; now inversion E|].
      exact (proj1 (proj1 (csv_sibling_equals_standalone url label_schema c
                             (lit "Links") (lit "download.csv")) html t' E)).
    + vm_compute in E. discriminate E.
  - split; [reflexivity|].
    exact (proj2 (csv_sibling_equals_standalone url label_schema [item_named VNull]
                    (lit "Links") (lit "download.csv")) TypeError eq_refl).
Defined.

(* ================================================================== *)
(** * Objects in the shared formatter *)
(* ================================================================== *)

(** C10: a non-null value of type object is always formatted as a
    collection of name/value pairs, never by the string-and-trim branch;
    so an object without a length (not array-like, not iterable) formats
    to the empty string although its string form is the class tag, as the
    record with the one property a = 1 shows. *)
Theorem formatValue_object_is_pair_collection :
  (forall v, typeof v = TObject -> is_nullish v = false ->
     ListofObj_Base.formatValue v
     = (arr <- arrayFrom v ;;
        parts <- mapM ListofObj_Base.name_value_pair arr ;;
        Ok (join (lit "; ") parts))) /\
  (forall props, lookup (lit "length") props = None ->
     ListofObj_Base.formatValue (VObj props) = Ok [] /\
     trim (toString (VObj props)) = lit "[object Object]") /\
  ListofObj_Base.formatValue (VObj [(lit "a", VNum 1)]) = Ok [].
Proof.
  split; [|split].
  - intros v Ht Hn. unfold ListofObj_Base.formatValue. now rewrite Hn, Ht.
  - intros props H. split; [|reflexivity].
    unfold ListofObj_Base.formatValue, arrayFrom, get. cbn [is_nullish typeof].
    rewrite H. reflexivity.
  - reflexivity.
Qed.

Lemma formatValue_object_witness :
  let props := [(lit "a", VNum 1); (lit "b", VStr (lit "x"))] in
  (typeof (VObj props) = TObject /\ is_nullish (VObj props) = false /\
   ListofObj_Base.formatValue (VObj props)
   = (arr <- arrayFrom (VObj props) ;;
      parts <- mapM ListofObj_Base.name_value_pair arr ;;
      Ok (join (lit "; ") parts))) /\
  (lookup (lit "length") props = None /\
   ListofObj_Base.formatValue (VObj props) = Ok [] /\
   trim (toString (VObj props)) = lit "[object Object]").
Proof.
  intros props.
  destruct formatValue_object_is_pair_collection as [H1 [H2 _]].
  split.
  - split; [reflexivity|]. split; [reflexivity|].
    exact (H1 (VObj props) eq_refl eq_refl).
  - split; [reflexivity|]. exact (H2 props eq_refl).
Defined.

(* ================================================================== *)
(** * More on the CSV encoder *)
(* ================================================================== *)

Lemma doubled_inj (a b : jsstring) : doubled a = doubled b -> a = b.
Proof.
  revert b. induction a as [|c r IH]; intros [|d s] H; simpl in H.
  - reflexivity.
  - destruct (N.eqb d dquote); discriminate.
  - destruct (N.eqb c dquote); discriminate.
  - destruct (N.eqb c dquote) eqn:Ec, (N.eqb d dquote) eqn:Ed.
    + apply N.eqb_eq in Ec, Ed. subst. inversion H. f_equal. now apply IH.
    + inversion H; subst. now rewrite N.eqb_refl in Ed.
    + inversion H; subst. now rewrite N.eqb_refl in Ec.
    + inversion H; subst. f_equal. now apply IH.
Qed.

Lemma quoted_inj (a b : jsstring) : quoted a = quoted b -> a = b.
Proof.
  unfold quoted. intros H. apply app_inv_head in H. now apply app_inv_tail in H.
Qed.

Lemma quoted_needs_quoting (a : jsstring) : needs_quoting (quoted a).
Proof. left. now left. Qed.

Lemma needs_quoting_dec (t : jsstring) : {needs_quoting t} + {~ needs_quoting t}.
Proof.
  destruct (test_class [dquote; comma; LF] t) eqn:E.
  - left. now apply test_class_needs_quoting.
  - right. intros H. apply test_class_needs_quoting in H. congruence.
Qed.

(** X1: the encoder never sends two different texts to the same cell. *)
Theorem escapeForCSV_injective (a b : jsstring) :
  ListofObj_to_DelimitedText.escapeForCSV a = ListofObj_to_DelimitedText.escapeForCSV b ->
  a = b.
Proof.
  intros H.
  destruct (needs_quoting_dec a) as [Ha|Ha], (needs_quoting_dec b) as [Hb|Hb].
  - rewrite (escapeForCSV_unsafe a Ha), (escapeForCSV_unsafe b Hb) in H.
    now apply doubled_inj, quoted_inj.
  - rewrite (escapeForCSV_unsafe a Ha), (escapeForCSV_safe b Hb) in H.
    exfalso. apply Hb. rewrite <- H. apply quoted_needs_quoting.
  - rewrite (escapeForCSV_safe a Ha), (escapeForCSV_unsafe b Hb) in H.
    exfalso. apply Ha. rewrite H. apply quoted_needs_quoting.
  - now rewrite (escapeForCSV_safe a Ha), (escapeForCSV_safe b Hb) in H.
Qed.

Lemma escapeForCSV_injective_witness :
  ListofObj_to_DelimitedText.escapeForCSV (lit "a,b")
  = ListofObj_to_DelimitedText.escapeForCSV (lit "a,b")
  /\ lit "a,b" = lit "a,b".
Proof.
  split; [reflexivity|].
  exact (escapeForCSV_injective (lit "a,b") (lit "a,b") eq_refl).
Defined.

Lemma count_dquote_doubled (t : jsstring) :
  count_dquote (doubled t) = 2 * count_dquote t.
Proof.
  unfold count_dquote. induction t as [|c r IH]; simpl; [reflexivity|].
  destruct (N.eqb c dquote) eqn:E.
  - apply N.eqb_eq in E. subst. simpl.
    destruct (N.eq_dec dquote dquote) as [_|n]; [|now destruct n].
    rewrite IH. lia.
  - simpl. destruct (N.eq_dec c dquote) as [e|_].
    + subst. now rewrite N.eqb_refl in E.
    + exact IH.
Qed.

Lemma count_dquote_app (a b : jsstring) :
  count_dquote (a ++ b) = count_dquote a + count_dquote b.
Proof. apply count_occ_app. Qed.

Lemma count_dquote_safe (t : jsstring) : ~ needs_quoting t -> count_dquote t = 0.
Proof.
  intros H. unfold count_dquote. apply count_occ_not_In.
  intros Hin. apply H. now left.
Qed.

Lemma length_doubled (t : jsstring) :
  List.length (doubled t) = List.length t + count_dquote t.
Proof.
  unfold count_dquote. induction t as [|c r IH]; simpl; [reflexivity|].
  destruct (N.eqb c dquote) eqn:E.
  - apply N.eqb_eq in E. subst. simpl.
    destruct (N.eq_dec dquote dquote) as [_|n]; [|now destruct n].
    rewrite IH. lia.
  - simpl. destruct (N.eq_dec c dquote) as [e|_].
    + subst. now rewrite N.eqb_refl in E.
    + rewrite IH. lia.
Qed.

(** X2: an encoded cell holds an even number of double quotes: none when
    the text needed no quoting, and otherwise two for every quote of the
    text plus the two that wrap it, the cell being longer than the text by
    its number of quotes plus two. *)
Theorem escapeForCSV_quotes_balanced (t : jsstring) :
  Nat.Even (count_dquote (ListofObj_to_DelimitedText.escapeForCSV t)) /\
  (needs_quoting t ->
   count_dquote (ListofObj_to_DelimitedText.escapeForCSV t) = 2 * count_dquote t + 2 /\
   List.length (ListofObj_to_DelimitedText.escapeForCSV t)
   = List.length t + count_dquote t + 2) /\
  (~ needs_quoting t ->
   count_dquote (ListofObj_to_DelimitedText.escapeForCSV t) = 0).
Proof.
  assert (Hq : needs_quoting t ->
               count_dquote (ListofObj_to_DelimitedText.escapeForCSV t)
               = 2 * count_dquote t + 2 /\
               List.length (ListofObj_to_DelimitedText.escapeForCSV t)
               = List.length t + count_dquote t + 2).
  { intros H. rewrite (escapeForCSV_unsafe t H). unfold quoted. split.
    - rewrite !count_dquote_app, count_dquote_doubled.
      change (count_dquote [dquote]) with 1. lia.
    - rewrite !length_app, length_doubled. simpl. lia. }
  assert (Hs : ~ needs_quoting t ->
               count_dquote (ListofObj_to_DelimitedText.escapeForCSV t) = 0).
  { intros H. rewrite (escapeForCSV_safe t H). now apply count_dquote_safe. }
  split; [|split; assumption].
  destruct (needs_quoting_dec t) as [H|H].
  - destruct (Hq H) as [-> _]. exists (count_dquote t + 1). lia.
  - rewrite (Hs H). exists 0. reflexivity.
Qed.

Lemma escapeForCSV_quotes_witness :
  (needs_quoting (lit "x,y") /\
   List.length (ListofObj_to_DelimitedText.escapeForCSV (lit "x,y"))
   = List.length (lit "x,y") + count_dquote (lit "x,y") + 2) /\
  (~ needs_quoting (lit "plain") /\
   count_dquote (ListofObj_to_DelimitedText.escapeForCSV (lit "plain")) = 0).
Proof.
  assert (H1 : needs_quoting (lit "x,y")).
  { right; left. simpl. auto. }
  assert (H2 : ~ needs_quoting (lit "plain")).
  { unfold needs_quoting. vm_compute. intuition discriminate. }
  split; (split; [assumption|]).
  - exact (proj2 (proj1 (proj2 (escapeForCSV_quotes_balanced (lit "x,y"))) H1)).
  - exact (proj2 (proj2 (escapeForCSV_quotes_balanced (lit "plain"))) H2).
Defined.

(* ================================================================== *)
(** * Failures of the row builder *)
(* ================================================================== *)

Section MapMFailure.

Context {A B : Type}.

Lemma mapM_Throw_iff (f : A -> result B) (l : list A) :
  (exists e, mapM f l = Throw e) <-> (exists x e, In x l /\ f x = Throw e).
Proof.
  induction l as [|a r IH]; simpl.
  - split; [intros [e H]; discriminate | intros [x [e [[] _]]]].
  - destruct (f a) as [y|e] eqn:Fa; simpl.
    + destruct (mapM f r) as [ys|e'] eqn:M; simpl.
      * split; [intros [e H]; discriminate|].
        intros [x [e [[<-|Hx] Fx]]]; [congruence|].
        destruct (proj2 IH) as [e0 H0]; [now exists x, e | discriminate].
      * split; [|intros _; now exists e'].
        intros _. destruct (proj1 IH) as [x [e0 [Hx Fx]]]; [now exists e'|].
        exists x, e0. auto.
    + split; [|intros _; now exists e].
      intros _. exists a, e. auto.
Qed.

Lemma mapM_succeeds_inv (f : A -> result B) (l : list A) :
  succeeds (mapM f l) -> forall x, In x l -> succeeds (f x).
Proof.
  induction l as [|a r IH]; intros [ys H] x Hx; [destruct Hx|].
  cbn [mapM] in H.
  destruct (f a) as [y|e] eqn:Fa; cbn [bind] in H; [|discriminate].
  destruct (mapM f r) as [zs|e] eqn:M; cbn [bind] in H; [|discriminate].
  destruct Hx as [<-|Hx]; [now exists y|].
  apply IH; [now exists zs | exact Hx].
Qed.

(** A traversal throws the error of the first element that fails. *)
Lemma mapM_Throw_first (f : A -> result B) (l : list A) (e : error) :
  mapM f l = Throw e <->
  exists l1 x l2,
    l = l1 ++ x :: l2 /\ (forall y, In y l1 -> succeeds (f y)) /\ f x = Throw e.
Proof.
  induction l as [|a r IH]; cbn [mapM].
  - split; [discriminate|].
    intros [l1 [x [l2 [H _]]]]. now destruct l1.
  - destruct (f a) as [y|e'] eqn:Fa; cbn [bind].
    + split.
      * intros H.
        destruct (mapM f r) as [ys|e''] eqn:M; cbn [bind] in H; [discriminate|].
        inversion H; subst e''.
        destruct (proj1 IH eq_refl) as [l1 [x [l2 [Hl [Hs Hx]]]]].
        exists (a :: l1), x, l2. split; [now rewrite Hl|].
        split; [|exact Hx].
        intros z [<-|Hz]; [now exists y | now apply Hs].
      * intros [l1 [x [l2 [Hl [Hs Hx]]]]].
        destruct l1 as [|b l1]; cbn [app] in Hl; inversion Hl; subst.
        -- congruence.
        -- rewrite (proj2 IH); [reflexivity|].
           exists l1, x, l2. split; [reflexivity|]. split; [|exact Hx].
           intros z Hz. apply Hs. now right.
    + split.
      * intros H. inversion H; subst e'.
        exists [], a, r. split; [reflexivity|]. split; [intros z []|exact Fa].
      * intros [l1 [x [l2 [Hl [Hs Hx]]]]].
        destruct l1 as [|b l1]; cbn [app] in Hl; inversion Hl; subst.
        -- congruence.
        -- destruct (Hs b (or_introl eq_refl)) as [y Hy]. congruence.
Qed.

Lemma mapM_fmap {C : Type} (f : A -> result B) (g : B -> C) (l : list A) :
  mapM (fun x => fmap g (f x)) l = fmap (map g) (mapM f l).
Proof.
  induction l as [|a r IH]; simpl; [reflexivity|].
  destruct (f a) as [y|e]; simpl; [|reflexivity].
  rewrite IH. now destruct (mapM f r).
Qed.

End MapMFailure.

Lemma resolveField_Throw (item : value) (r : resolver) (e : error) :
  ListofObj_Base.resolveField item r = Throw e ->
  exists f, r = RFun f /\ f item = Throw e.
Proof.
  destruct r as [path|f]; simpl; intros H.
  - destruct (resolvePath_succeeds item path) as [v Hv]. congruence.
  - now exists f.
Qed.

Lemma buildRows_Throw_iff (s : schema_t) (c : list value) :
  (exists e, ListofObj_Base.buildRows (ListofObj_Base.new s c) = Throw e) <->
  (exists f item e, In (RFun f) (map snd s) /\ In item c /\ f item = Throw e).
Proof.
  unfold ListofObj_Base.buildRows. cbn [ListofObj_Base.collection ListofObj_Base.fields ListofObj_Base.new].
  rewrite mapM_Throw_iff. split.
  - intros [i [e [Hi H]]]. apply in_seq in Hi.
    destruct (mapM _ (map snd s)) as [row|e'] eqn:M; simpl in H; [discriminate|].
    destruct (proj1 (mapM_Throw_iff _ _) (ex_intro _ e' M)) as [r [e0 [Hr Fr]]].
    apply resolveField_Throw in Fr. destruct Fr as [f [-> Ff]].
    exists f, (nth i c VUndefined), e0. repeat split; trivial.
    apply nth_In. lia.
  - intros [f [item [e [Hf [Hitem Ff]]]]].
    destruct (In_nth c item VUndefined Hitem) as [i [Hi Hn]].
    destruct (proj2 (mapM_Throw_iff
                       (ListofObj_Base.resolveField (nth i c VUndefined)) (map snd s)))
      as [e' M].
    { exists (RFun f), e. split; [exact Hf|]. simpl. now rewrite Hn. }
    exists i, e'. split; [apply in_seq; lia|]. now rewrite M.
Qed.

(** Whether the rows can be built, and with which error they cannot,
    does not depend on the numbering of the rows. *)
Lemma numbered_rows_Throw (g : value -> result (list value))
    (h : nat -> list value -> list value) (c : list value) (a : nat) (e : error) :
  mapM (fun i => row <- g (nth (i - a) c VUndefined) ;; Ok (h i row))
       (seq a (List.length c)) = Throw e
  <-> mapM g c = Throw e.
Proof.
  revert a. induction c as [|x c' IH]; intros a; [reflexivity|].
  cbn [List.length seq mapM]. rewrite Nat.sub_diag. cbn [nth].
  rewrite (mapM_ext _
             (fun i => row <- g (nth (i - S a) c' VUndefined) ;; Ok (h i row))).
  2:{ intros i Hi. apply in_seq in Hi.
      replace (i - a) with (S (i - S a)) by lia. reflexivity. }
  specialize (IH (S a)).
  destruct (g x) as [row|e']; cbn [bind]; [|reflexivity].
  destruct (mapM _ (seq (S a) (List.length c'))) as [ys|e1];
    destruct (mapM g c') as [zs|e2]; cbn [bind].
  - split; discriminate.
  - split; [discriminate|]. intros H. inversion H; subst e2.
    discriminate (proj2 IH eq_refl).
  - split; [|discriminate]. intros H. inversion H; subst e1.
    discriminate (proj1 IH eq_refl).
  - exact IH.
Qed.

Lemma buildRows_Throw_rows (s : schema_t) (c : list value) (e : error) :
  ListofObj_Base.buildRows (ListofObj_Base.new s c) = Throw e <->
  mapM (fun item => mapM (ListofObj_Base.resolveField item) (map snd s)) c = Throw e.
Proof.
  unfold ListofObj_Base.buildRows.
  cbn [ListofObj_Base.collection ListofObj_Base.fields ListofObj_Base.new].
  rewrite <- (numbered_rows_Throw
                (fun item => mapM (ListofObj_Base.resolveField item) (map snd s))
                (fun i row => VNum (Z.of_nat i + 1) :: row) c 0 e).
  rewrite (mapM_ext _
             (fun i => row <- mapM (ListofObj_Base.resolveField
                                      (nth (i - 0) c VUndefined)) (map snd s) ;;
                       Ok (VNum (Z.of_nat i + 1) :: row))).
  - reflexivity.
  - intros i _. now rewrite Nat.sub_0_r.
Qed.

(** X3: the row builder isolates no failure and adds none of its own.  It
    throws exactly when resolving some field of some item throws, and the
    error it throws is the one of the first such field in the order of
    the loop: the items in the order of the collection and, for each
    item, the resolvers in the order of the schema.  Every field before
    that one has been resolved, and the rows built from them are lost. *)
Theorem buildRows_throws_first_failure (s : schema_t) (c : list value) :
  (forall e,
     ListofObj_Base.buildRows (ListofObj_Base.new s c) = Throw e <->
     exists c1 item c2 f1 r f2,
       c = c1 ++ item :: c2 /\ map snd s = f1 ++ r :: f2 /\
       (forall it r', In it c1 -> In r' (map snd s) ->
                      succeeds (ListofObj_Base.resolveField it r')) /\
       (forall r', In r' f1 -> succeeds (ListofObj_Base.resolveField item r')) /\
       ListofObj_Base.resolveField item r = Throw e) /\
  ((exists e, ListofObj_Base.buildRows (ListofObj_Base.new s c) = Throw e) <->
   (exists item r e,
      In item c /\ In r (map snd s) /\
      ListofObj_Base.resolveField item r = Throw e)).
Proof.
  split.
  - intros e. rewrite buildRows_Throw_rows, mapM_Throw_first. split.
    + intros [c1 [item [c2 [Hc [Hbefore Hitem]]]]].
      apply mapM_Throw_first in Hitem.
      destruct Hitem as [f1 [r [f2 [Hf [Hf1 Hr]]]]].
      exists c1, item, c2, f1, r, f2.
      split; [exact Hc|]. split; [exact Hf|]. split; [|split; assumption].
      intros it r' Hit Hr'.
      now apply (mapM_succeeds_inv _ _ (Hbefore it Hit)).
    + intros [c1 [item [c2 [f1 [r [f2 [Hc [Hf [Hbefore [Hf1 Hr]]]]]]]]]].
      exists c1, item, c2. split; [exact Hc|]. split.
      * intros it Hit. apply mapM_succeeds. intros r' Hr'.
        now apply Hbefore.
      * apply mapM_Throw_first. now exists f1, r, f2.
  - split.
    + intros [e H]. apply buildRows_Throw_rows in H.
      destruct (proj1 (mapM_Throw_iff _ _) (ex_intro _ e H))
        as [item [e1 [Hitem H1]]].
      destruct (proj1 (mapM_Throw_iff _ _) (ex_intro _ e1 H1))
        as [r [e2 [Hr H2]]].
      now exists item, r, e2.
    + intros [item [r [e [Hitem [Hr H]]]]].
      destruct (proj2 (mapM_Throw_iff
                         (ListofObj_Base.resolveField item) (map snd s)))
        as [e1 H1]; [now exists r, e|].
      destruct (proj2 (mapM_Throw_iff
                         (fun it => mapM (ListofObj_Base.resolveField it) (map snd s)) c))
        as [e2 H2]; [now exists item, e1|].
      exists e2. now apply buildRows_Throw_rows.
Qed.

Lemma buildRows_throws_first_failure_witness :
  let titled := VObj [(lit "tagName", VStr (lit "H1"));
                      (lit "innerText", VStr (lit " Title "))] in
  let bare := VObj [(lit "tagName", VStr (lit "H2"))] in
  let c := [titled; bare; VNull] in
  (exists c1 item c2 f1 r f2,
     c = c1 ++ item :: c2 /\ map snd heading_schema = f1 ++ r :: f2 /\
     (forall it r', In it c1 -> In r' (map snd heading_schema) ->
                    succeeds (ListofObj_Base.resolveField it r')) /\
     (forall r', In r' f1 -> succeeds (ListofObj_Base.resolveField item r')) /\
     ListofObj_Base.resolveField item r = Throw TypeError) /\
  ListofObj_Base.buildRows (ListofObj_Base.new heading_schema c) = Throw TypeError.
Proof.
  intros titled bare c.
  assert (H : exists c1 item c2 f1 r f2,
             c = c1 ++ item :: c2 /\ map snd heading_schema = f1 ++ r :: f2 /\
             (forall it r', In it c1 -> In r' (map snd heading_schema) ->
                            succeeds (ListofObj_Base.resolveField it r')) /\
             (forall r', In r' f1 ->
                         succeeds (ListofObj_Base.resolveField item r')) /\
             ListofObj_Base.resolveField item r = Throw TypeError).
  { exists [titled], bare, [VNull].
    eexists [_], _, [_].
    split; [reflexivity|]. split; [reflexivity|]. split; [|split].
    - intros it r' [<-|[]] [<-|[<-|[<-|[]]]]; eexists; vm_compute; reflexivity.
    - intros r' [<-|[]]. eexists; vm_compute; reflexivity.
    - vm_compute. reflexivity. }
  split; [exact H|].
  exact (proj2 (proj1 (buildRows_throws_first_failure heading_schema c) TypeError) H).
Defined.

(* ================================================================== *)
(** * The ordinal column and the shape of the rendered rows *)
(* ================================================================== *)

Lemma string_of_uint_digits (d : Decimal.uint) :
  digits_only (lit (NilEmpty.string_of_uint d)).
Proof.
  unfold digits_only.
  induction d; simpl; constructor; trivial.
Qed.

Lemma of_Z_digits (z : Z) : (0 <= z)%Z -> digits_only (of_Z z).
Proof.
  intros Hz. unfold of_Z. destruct z as [|p|p]; simpl.
  - repeat constructor.
  - unfold NilZero.string_of_uint.
    destruct (Pos.to_uint p) eqn:E;
      try (rewrite <- E; apply string_of_uint_digits).
    repeat constructor.
  - lia.
Qed.

Lemma digit_not_white (c : char16) : is_digit c = true -> isWhiteSpace c = false.
Proof.
  unfold is_digit. rewrite andb_true_iff, !N.leb_le. intros [H1 H2].
  destruct (isWhiteSpace c) eqn:E; [exfalso|reflexivity].
  unfold isWhiteSpace in E.
  rewrite !orb_true_iff, andb_true_iff, !N.eqb_eq, !N.leb_le in E. lia.
Qed.

Lemma digits_safe (s : jsstring) : digits_only s -> ~ needs_quoting s.
Proof.
  intros H [Hq|[Hq|Hq]];
    (eapply Forall_forall in H; [|exact Hq]); discriminate H.
Qed.

Lemma trim_no_white (s : jsstring) :
  Forall (fun c => isWhiteSpace c = false) s -> trim s = s.
Proof.
  intros H. unfold trim, trimStart, trimEnd.
  rewrite (dropWhile_keep _ isWhiteSpace s).
  - rewrite (dropWhile_keep _ isWhiteSpace (rev s)); [apply rev_involutive|].
    apply Forall_rev in H. destruct (rev s); [exact I|]. now inversion H.
  - destruct s; [exact I|]. now inversion H.
Qed.

Lemma trim_digits (s : jsstring) : digits_only s -> trim s = s.
Proof.
  intros H. apply trim_no_white.
  eapply Forall_impl; [|exact H]. apply digit_not_white.
Qed.

Lemma formatValue_ordinal (n : nat) :
  ListofObj_Base.formatValue (VNum (Z.of_nat n + 1)) = Ok (of_nat (n + 1)).
Proof.
  unfold of_nat. replace (Z.of_nat (n + 1)) with (Z.of_nat n + 1)%Z by lia.
  unfold ListofObj_Base.formatValue. cbn [is_nullish typeof toString].
  rewrite trim_digits; [reflexivity|]. apply of_Z_digits. lia.
Qed.

Lemma cell_ordinal (n : nat) :
  ListofObj_to_DelimitedText.cell (VNum (Z.of_nat n + 1)) = Ok (of_nat (n + 1)).
Proof.
  unfold of_nat. replace (Z.of_nat (n + 1)) with (Z.of_nat n + 1)%Z by lia.
  assert (D : digits_only (of_Z (Z.of_nat n + 1))) by (apply of_Z_digits; lia).
  rewrite cell_fmap. unfold ListofObj_to_DelimitedText.formatCSVcellvalues.
  cbn [typeof toString fmap bind].
  rewrite (trim_digits _ D). now rewrite (escapeForCSV_safe _ (digits_safe _ D)).
Qed.

(** The texts of the rows, whatever formats the cells: one list of texts
    per item, each starting with the decimal numeral of its position. *)
Lemma formatted_rows_shape (fmt : value -> result jsstring)
    (s : schema_t) (c : list value) (rows : list (list value))
    (table : list (list jsstring)) :
  (forall n, fmt (VNum (Z.of_nat n + 1)) = Ok (of_nat (n + 1))) ->
  ListofObj_Base.buildRows (ListofObj_Base.new s c) = Ok rows ->
  mapM (mapM fmt) rows = Ok table ->
  List.length table = List.length c /\
  forall i, i < List.length c ->
    exists texts,
      nth_error table i = Some (of_nat (i + 1) :: texts) /\
      List.length texts = List.length s.
Proof.
  intros Hord Hrows Htable.
  destruct (buildRows_shape s c rows Hrows) as [Hlen Hnth]. split.
  - rewrite (mapM_length _ _ _ Htable). exact Hlen.
  - intros i Hi. destruct (Hnth i Hi) as [vals [Hrow Hvals]].
    destruct (mapM_nth_error _ _ _ Htable i _ Hrow) as [texts [Ht Hf]].
    simpl in Hf. rewrite Hord in Hf. simpl in Hf.
    destruct (mapM fmt vals) as [rest|e] eqn:M; simpl in Hf; [|discriminate].
    inversion Hf; subst. exists rest. split; [exact Ht|].
    rewrite (mapM_length _ _ _ M). exact Hvals.
Qed.

Lemma row_line_fmap (this : ListofObj_to_DelimitedText.t) (row : list value) :
  ListofObj_to_DelimitedText.row_line this row
  = fmap (text_line (ListofObj_to_DelimitedText.columnDelimiter this)
            (ListofObj_to_DelimitedText.rowDelimiter this))
      (mapM ListofObj_to_DelimitedText.cell row).
Proof. reflexivity. Qed.

Lemma row_cells_fmap (row : list value) :
  ListofObj_to_Table.row_cells row
  = fmap tr_row (mapM ListofObj_Base.formatValue row).
Proof.
  unfold ListofObj_to_Table.row_cells.
  change (mapM (fun c => s <- ListofObj_Base.formatValue c ;;
                         Ok (lit "<TD>" ++ s ++ lit "</TD>")) row)
    with (mapM (fun c => fmap td_cell (ListofObj_Base.formatValue c)) row).
  rewrite mapM_fmap. now destruct (mapM ListofObj_Base.formatValue row).
Qed.

Lemma Ok_inv {A} (a b : A) : Ok a = Ok b -> a = b.
Proof. intros H. now inversion H. Qed.

Lemma fmap_Ok_inv {A B} (f : A -> B) (m : result A) (b : B) :
  fmap f m = Ok b -> exists a, m = Ok a /\ b = f a.
Proof.
  destruct m as [a|e]; simpl; intros H; [|discriminate].
  exists a. split; [reflexivity|]. now inversion H.
Qed.

(** X4: when the delimited-text renderer returns, its text is the title
    block, the header line and then exactly one line per item of the
    collection, in order; line i holds the decimal numeral of i + 1
    followed by one text per schema column, joined by the column
    delimiter and closed by the row delimiter. *)
Theorem render_lines_are_rectangular
    (s : schema_t) (c : list value) (o : ListofObj_to_DelimitedText.options)
    (ttl out : jsstring) :
  let this := ListofObj_to_DelimitedText.new s c o in
  let cd := ListofObj_to_DelimitedText.columnDelimiter this in
  let rd := ListofObj_to_DelimitedText.rowDelimiter this in
  ListofObj_to_DelimitedText.render (ListofObj_to_DelimitedText.setTitle ttl this) = Ok out ->
  exists table : list (list jsstring),
    List.length table = List.length c /\
    (forall i, i < List.length c ->
       exists texts,
         nth_error table i = Some (of_nat (i + 1) :: texts) /\
         List.length texts = List.length s) /\
    out = ListofObj_to_DelimitedText.title_block ttl rd
          ++ text_line cd rd (lit "No." :: map fst s)
          ++ concat (map (text_line cd rd) table).
Proof.
  intros this cd rd H. unfold ListofObj_to_DelimitedText.render in H.
  bind_inv H rows Hrows. bind_inv H lines Hlines.
  apply Ok_inv in H.
  rewrite (mapM_ext _ _ rows (fun row _ => row_line_fmap _ row)) in Hlines.
  rewrite mapM_fmap in Hlines. apply fmap_Ok_inv in Hlines.
  destruct Hlines as [table [Htable ->]].
  exists table.
  destruct (formatted_rows_shape _ s c rows table cell_ordinal Hrows Htable)
    as [Hlen Hnth].
  split; [exact Hlen|]. split; [exact Hnth|].
  rewrite <- H. rewrite <- app_assoc. reflexivity.
Qed.

Lemma render_lines_witness :
  let c := [item_named (VStr (lit "A"))] in
  let out := lit "No.,Label" ++ [CR; LF] ++ lit "1,A" ++ [CR; LF] in
  ListofObj_to_DelimitedText.render
    (ListofObj_to_DelimitedText.setTitle []
       (ListofObj_to_DelimitedText.new label_schema c csv_options)) = Ok out /\
  exists table : list (list jsstring),
    List.length table = List.length c /\
    (forall i, i < List.length c ->
       exists texts,
         nth_error table i = Some (of_nat (i + 1) :: texts) /\
         List.length texts = List.length label_schema) /\
    out = ListofObj_to_DelimitedText.title_block [] [CR; LF]
          ++ text_line (lit ",") [CR; LF] (lit "No." :: map fst label_schema)
          ++ concat (map (text_line (lit ",") [CR; LF]) table).
Proof.
  intros c out. split; [reflexivity|].
  exact (render_lines_are_rectangular label_schema c csv_options [] out eq_refl).
Defined.

Lemma Table_render_unfold (url : jsstring -> jsstring) (s : schema_t)
    (c : list value) (ttl fname : jsstring) :
  ListofObj_to_Table.render url
    (ListofObj_to_Table.setTitle ttl (ListofObj_to_Table.new s c)) fname
  = (rows <- ListofObj_Base.buildRows (ListofObj_Base.new s c) ;;
     table <- mapM (mapM ListofObj_Base.formatValue) rows ;;
     csv <- ListofObj_to_DelimitedText.render
              (ListofObj_to_DelimitedText.new s c csv_options) ;;
     Ok (table_head ttl (lit "No." :: map fst s)
         ++ concat (map tr_row table) ++ lit "</TABLE><BR>"
         ++ ListofObj_to_Table.createCSVBloblink url csv fname,
         ListofObj_to_Table.mk (ListofObj_Base.setTitle ttl (ListofObj_Base.new s c)) csv)).
Proof.
  unfold ListofObj_to_Table.render.
  change (ListofObj_Base.buildRows
            (ListofObj_to_Table.base
               (ListofObj_to_Table.setTitle ttl (ListofObj_to_Table.new s c))))
    with (ListofObj_Base.buildRows (ListofObj_Base.new s c)).
  destruct (ListofObj_Base.buildRows (ListofObj_Base.new s c)) as [rows|e];
    [|reflexivity].
  cbn [bind].
  rewrite (mapM_ext _ _ rows (fun row _ => row_cells_fmap row)), mapM_fmap.
  destruct (mapM (mapM ListofObj_Base.formatValue) rows) as [table|e];
    [|reflexivity].
  cbn [bind fmap].
  change (ListofObj_to_DelimitedText.new
            (ListofObj_Base.schema
               (ListofObj_to_Table.base
                  (ListofObj_to_Table.setTitle ttl (ListofObj_to_Table.new s c))))
            (ListofObj_Base.collection
               (ListofObj_to_Table.base
                  (ListofObj_to_Table.setTitle ttl (ListofObj_to_Table.new s c))))
            (ListofObj_to_DelimitedText.mkOptions (Some (lit ",")) (Some [CR; LF])))
    with (ListofObj_to_DelimitedText.new s c csv_options).
  destruct (ListofObj_to_DelimitedText.render _) as [csv|e]; [|reflexivity].
  cbn [bind]. f_equal. f_equal.
  unfold table_head, ListofObj_to_Table.header_cells.
  change (ListofObj_Base.title
            (ListofObj_to_Table.base
               (ListofObj_to_Table.setTitle ttl (ListofObj_to_Table.new s c))))
    with ttl.
  change (ListofObj_Base.header
            (ListofObj_to_Table.base
               (ListofObj_to_Table.setTitle ttl (ListofObj_to_Table.new s c))))
    with (lit "No." :: map fst s).
  change (map (fun h => lit "<TH>" ++ h ++ lit "</TH>")) with (map th_cell).
  destruct ttl; rewrite <- !app_assoc; reflexivity.
Qed.

(** X5: when the table renderer returns, its markup is the head of the
    table, then exactly one table row per item of the collection, in
    order, then the end of the table and the download link; row i holds
    the decimal numeral of i + 1 in its first data cell and one data cell
    per schema column after it. *)
Theorem table_rows_are_rectangular
    (url : jsstring -> jsstring) (s : schema_t) (c : list value)
    (ttl fname html : jsstring) (t' : ListofObj_to_Table.t) :
  ListofObj_to_Table.render url
    (ListofObj_to_Table.setTitle ttl (ListofObj_to_Table.new s c)) fname
  = Ok (html, t') ->
  exists table : list (list jsstring),
    List.length table = List.length c /\
    (forall i, i < List.length c ->
       exists texts,
         nth_error table i = Some (of_nat (i + 1) :: texts) /\
         List.length texts = List.length s) /\
    html = table_head ttl (lit "No." :: map fst s)
           ++ concat (map tr_row table) ++ lit "</TABLE><BR>"
           ++ ListofObj_to_Table.createCSVBloblink url (ListofObj_to_Table.objCSV t') fname.
Proof.
  rewrite Table_render_unfold. intros H.
  bind_inv H rows Hrows. bind_inv H table Htable. bind_inv H csv Hcsv.
  apply Ok_pair_inv in H. destruct H as [<- <-].
  exists table.
  destruct (formatted_rows_shape _ s c rows table formatValue_ordinal Hrows Htable)
    as [Hlen Hnth].
  repeat split; trivial.
Qed.

Lemma table_rows_witness :
  let url := fun _ : jsstring => lit "blob:1" in
  let c := [item_named (VStr (lit "A")); item_named VUndefined] in
  exists html t',
    ListofObj_to_Table.render url
      (ListofObj_to_Table.setTitle [] (ListofObj_to_Table.new label_schema c))
      (lit "download.csv") = Ok (html, t') /\
    exists table : list (list jsstring),
      List.length table = List.length c /\
      (forall i, i < List.length c ->
         exists texts,
           nth_error table i = Some (of_nat (i + 1) :: texts) /\
           List.length texts = List.length label_schema) /\
      html = table_head [] (lit "No." :: map fst label_schema)
             ++ concat (map tr_row table) ++ lit "</TABLE><BR>"
             ++ ListofObj_to_Table.createCSVBloblink url
                  (ListofObj_to_Table.objCSV t') (lit "download.csv").
Proof.
  intros url c.
  destruct (ListofObj_to_Table.render url
              (ListofObj_to_Table.setTitle [] (ListofObj_to_Table.new label_schema c))
              (lit "download.csv")) as [[html t']|e] eqn:E.
  - exists html, t'. split; [reflexivity|].
    exact (table_rows_are_rectangular url label_schema c [] (lit "download.csv")
             html t' E).
  - vm_compute in E. discriminate E.
Defined.

(* ================================================================== *)
(** * Reports of scalar values *)
(* ================================================================== *)

Lemma mapM_pure {A B} (f : A -> result B) (g : A -> B) (l : list A) :
  (forall x, In x l -> f x = Ok (g x)) -> mapM f l = Ok (map g l).
Proof.
  induction l as [|a r IH]; intros H; simpl; [reflexivity|].
  rewrite (H a (or_introl eq_refl)). simpl.
  rewrite IH; [reflexivity|]. intros x Hx. apply H. now right.
Qed.

Lemma scalar_formatValue (v : value) :
  is_scalar v -> ListofObj_Base.formatValue v = Ok (trim (toString v)).
Proof. destruct v; simpl; intros H; try contradiction; reflexivity. Qed.

Lemma scalar_cell (v : value) :
  is_scalar v ->
  ListofObj_to_DelimitedText.cell v
  = Ok (ListofObj_to_DelimitedText.escapeForCSV (trim (toString v))).
Proof.
  intros H. rewrite cell_fmap.
  destruct v; simpl in H; try contradiction; reflexivity.
Qed.

Lemma scalar_rows_formatValue (rows : list (list value)) :
  Forall (Forall is_scalar) rows ->
  mapM (mapM ListofObj_Base.formatValue) rows
  = Ok (map (map (fun v => trim (toString v))) rows).
Proof.
  intros H. apply mapM_pure. intros row Hrow. apply mapM_pure.
  intros v Hv. apply scalar_formatValue.
  eapply Forall_forall in H; [|exact Hrow].
  eapply Forall_forall in H; [exact H|exact Hv].
Qed.

Lemma scalar_rows_cell (rows : list (list value)) :
  Forall (Forall is_scalar) rows ->
  mapM (mapM ListofObj_to_DelimitedText.cell) rows
  = Ok (map (map ListofObj_to_DelimitedText.escapeForCSV)
          (map (map (fun v => trim (toString v))) rows)).
Proof.
  intros H. rewrite map_map.
  apply mapM_pure. intros row Hrow. rewrite map_map. apply mapM_pure.
  intros v Hv. apply scalar_cell.
  eapply Forall_forall in H; [|exact Hrow].
  eapply Forall_forall in H; [exact H|exact Hv].
Qed.

Lemma DelimitedText_render_unfold (s : schema_t) (c : list value)
    (o : ListofObj_to_DelimitedText.options) (ttl : jsstring) :
  let this := ListofObj_to_DelimitedText.new s c o in
  let cd := ListofObj_to_DelimitedText.columnDelimiter this in
  let rd := ListofObj_to_DelimitedText.rowDelimiter this in
  ListofObj_to_DelimitedText.render (ListofObj_to_DelimitedText.setTitle ttl this)
  = (rows <- ListofObj_Base.buildRows (ListofObj_Base.new s c) ;;
     table <- mapM (mapM ListofObj_to_DelimitedText.cell) rows ;;
     Ok (ListofObj_to_DelimitedText.title_block ttl rd
         ++ text_line cd rd (lit "No." :: map fst s)
         ++ concat (map (text_line cd rd) table))).
Proof.
  intros this cd rd. unfold ListofObj_to_DelimitedText.render.
  change (ListofObj_Base.buildRows
            (ListofObj_to_DelimitedText.base
               (ListofObj_to_DelimitedText.setTitle ttl this)))
    with (ListofObj_Base.buildRows (ListofObj_Base.new s c)).
  destruct (ListofObj_Base.buildRows (ListofObj_Base.new s c)) as [rows|e];
    [|reflexivity].
  cbn [bind].
  rewrite (mapM_ext _ _ rows (fun row _ => row_line_fmap _ row)), mapM_fmap.
  destruct (mapM (mapM ListofObj_to_DelimitedText.cell) rows) as [table|e];
    [|reflexivity].
  cbn [bind fmap]. f_equal. rewrite <- app_assoc. reflexivity.
Qed.

(** X6: when every value the schema resolves is a boolean, a number or a
    string, the table renderer returns; its table shows the trimmed string
    form of every value, and the CSV text of its download link holds the
    very same texts, each passed through the CSV encoder, line by line. *)
Theorem scalar_report_sinks_agree
    (url : jsstring -> jsstring) (s : schema_t) (c : list value)
    (ttl fname : jsstring) (rows : list (list value)) :
  ListofObj_Base.buildRows (ListofObj_Base.new s c) = Ok rows ->
  Forall (Forall is_scalar) rows ->
  let table := map (map (fun v => trim (toString v))) rows in
  let csv := text_line (lit ",") [CR; LF] (lit "No." :: map fst s)
             ++ concat (map (text_line (lit ",") [CR; LF])
                          (map (map ListofObj_to_DelimitedText.escapeForCSV) table)) in
  exists t',
    ListofObj_to_Table.render url
      (ListofObj_to_Table.setTitle ttl (ListofObj_to_Table.new s c)) fname
    = Ok (table_head ttl (lit "No." :: map fst s)
          ++ concat (map tr_row table) ++ lit "</TABLE><BR>"
          ++ ListofObj_to_Table.createCSVBloblink url csv fname, t') /\
    ListofObj_to_Table.objCSV t' = csv.
Proof.
  intros Hrows Hscalar table csv.
  rewrite Table_render_unfold, Hrows. cbn [bind].
  rewrite (scalar_rows_formatValue rows Hscalar). cbn [bind].
  pose proof (DelimitedText_render_unfold s c csv_options []) as Hcsv.
  cbv zeta in Hcsv.
  change (ListofObj_to_DelimitedText.setTitle []
            (ListofObj_to_DelimitedText.new s c csv_options))
    with (ListofObj_to_DelimitedText.new s c csv_options) in Hcsv.
  rewrite Hcsv, Hrows. cbn [bind].
  rewrite (scalar_rows_cell rows Hscalar). cbn [bind].
  eexists. split; reflexivity.
Qed.

Lemma scalar_report_witness :
  let url := fun _ : jsstring => lit "blob:1" in
  let c := [item_named (VStr (lit " a,b ")); item_named (VBool true)] in
  let rows := [[VNum 1; VStr (lit " a,b ")]; [VNum 2; VBool true]] in
  ListofObj_Base.buildRows (ListofObj_Base.new label_schema c) = Ok rows /\
  Forall (Forall is_scalar) rows /\
  let table := map (map (fun v => trim (toString v))) rows in
  let csv := text_line (lit ",") [CR; LF] (lit "No." :: map fst label_schema)
             ++ concat (map (text_line (lit ",") [CR; LF])
                          (map (map ListofObj_to_DelimitedText.escapeForCSV) table)) in
  exists t',
    ListofObj_to_Table.render url
      (ListofObj_to_Table.setTitle [] (ListofObj_to_Table.new label_schema c))
      (lit "download.csv")
    = Ok (table_head [] (lit "No." :: map fst label_schema)
          ++ concat (map tr_row table) ++ lit "</TABLE><BR>"
          ++ ListofObj_to_Table.createCSVBloblink url csv (lit "download.csv"), t') /\
    ListofObj_to_Table.objCSV t' = csv.
Proof.
  intros url c rows.
  assert (Hs : Forall (Forall is_scalar) rows).
  { repeat constructor. }
  split; [reflexivity|]. split; [exact Hs|].
  exact (scalar_report_sinks_agree url label_schema c [] (lit "download.csv")
           rows eq_refl Hs).
Defined.

Lemma get_nullish_TypeError (v : value) (key : jsstring) :
  is_nullish v = true -> get v key = Throw TypeError.
Proof. destruct v; simpl; intros H; try discriminate; reflexivity. Qed.

(* ================================================================== *)
(** * Decimal indexes and attribute lists *)
(* ================================================================== *)

Lemma lit_String (c : ascii) (s : string) :
  lit (String c s) = N_of_ascii c :: lit s.
Proof. reflexivity. Qed.

Ltac eval_ascii :=
  match goal with
  | |- context [N_of_ascii ?c] =>
      let x := eval vm_compute in (N_of_ascii c) in
      change (N_of_ascii c) with x
  end.

Lemma digits_value_acc (d : Decimal.uint) (acc : positive) :
  fold_left digit_step (lit (NilEmpty.string_of_uint d)) (Npos acc)
  = Npos (Pos.of_uint_acc d acc).
Proof.
  revert acc.
  induction d; intros acc;
    cbn [NilEmpty.string_of_uint Pos.of_uint_acc]; [reflexivity|..];
    rewrite lit_String; cbn [fold_left]; rewrite <- IHd; f_equal;
    unfold digit_step; eval_ascii; lia.
Qed.

Lemma digits_value_uint (d : Decimal.uint) :
  digits_value (lit (NilEmpty.string_of_uint d)) = Pos.of_uint d.
Proof.
  unfold digits_value. fold digit_step.
  induction d; cbn [NilEmpty.string_of_uint Pos.of_uint];
    [reflexivity | rewrite lit_String; cbn [fold_left]; exact IHd |..];
    rewrite lit_String; cbn [fold_left]; rewrite <- digits_value_acc; f_equal.
Qed.

Lemma to_uint_no_leading_zero (p : positive) (d : Decimal.uint) :
  Pos.to_uint p <> Decimal.D0 d.
Proof.
  intros H.
  pose proof (DecimalPos.Unsigned.to_of (Pos.to_uint p)) as Hn.
  rewrite DecimalPos.Unsigned.of_to in Hn.
  change (N.to_uint (N.pos p)) with (Pos.to_uint p) in Hn.
  rewrite H in Hn. rewrite DecimalFacts.unorm_D0 in Hn.
  unfold Decimal.unorm in Hn.
  destruct (Decimal.nzhead d) eqn:Ez;
    try (symmetry in Hn; rewrite <- Ez in Hn;
         exact (DecimalFacts.nzhead_nonzero _ _ Hn)).
  apply (DecimalPos.Unsigned.to_uint_nonzero p). now rewrite H.
Qed.

Lemma digits_only_forallb (s : jsstring) :
  digits_only s -> forallb is_digit s = true.
Proof. intros H. apply forallb_forall. now apply Forall_forall. Qed.

Lemma string_of_uint_of_pos (p : positive) :
  NilZero.string_of_uint (Pos.to_uint p) = NilEmpty.string_of_uint (Pos.to_uint p).
Proof.
  unfold NilZero.string_of_uint.
  destruct (Pos.to_uint p) eqn:E; try reflexivity.
  now apply DecimalPos.Unsigned.to_uint_nonnil in E.
Qed.

Lemma array_index_of_nat (i : nat) : array_index (of_nat i) = Some i.
Proof.
  unfold of_nat, of_Z. destruct (Z.of_nat i) as [|p|p] eqn:E.
  - replace i with 0 by lia. reflexivity.
  - cbn [Z.to_int NilZero.string_of_int]. rewrite string_of_uint_of_pos.
    pose proof (string_of_uint_digits (Pos.to_uint p)) as Hd.
    pose proof (digits_value_uint (Pos.to_uint p)) as Hv.
    pose proof (to_uint_no_leading_zero p) as Hz.
    rewrite DecimalPos.Unsigned.of_to in Hv.
    destruct (Pos.to_uint p) as [|d|d|d|d|d|d|d|d|d|d] eqn:Eu;
      [now apply DecimalPos.Unsigned.to_uint_nonnil in Eu
      | now destruct (Hz d) |..];
      cbn [NilEmpty.string_of_uint] in *; rewrite lit_String in *;
      unfold array_index;
      rewrite (digits_only_forallb _ Hd), Hv; cbn [andb negb orb N.eqb];
      (replace (N.to_nat (N.pos p)) with i by lia); reflexivity.
  - lia.
Qed.

Lemma of_nat_not_length (i : nat) : JsString.eqb (of_nat i) (lit "length") = false.
Proof.
  unfold JsString.eqb.
  destruct (list_eq_dec N.eq_dec (of_nat i) (lit "length")) as [E|]; [|reflexivity].
  exfalso. assert (D : digits_only (of_nat i)) by (apply of_Z_digits; lia).
  rewrite E in D. inversion D as [|c r Hc _]. discriminate Hc.
Qed.

Lemma get_array_index (elems : list value) (i : nat) :
  get (VArr elems) (of_nat i) = Ok (nth i elems VUndefined).
Proof.
  unfold get. now rewrite of_nat_not_length, array_index_of_nat.
Qed.

Lemma get_array_length (elems : list value) :
  get (VArr elems) (lit "length") = Ok (VNum (Z.of_nat (List.length elems))).
Proof. reflexivity. Qed.

Lemma mapM_map {A B C} (f : B -> result C) (h : A -> B) (l : list A) :
  mapM f (map h l) = mapM (fun x => f (h x)) l.
Proof.
  induction l as [|a r IH]; simpl; [reflexivity|]. now rewrite IH.
Qed.

Lemma mapM_seq_nth {A B} (f : A -> result B) (l : list A) (d : A) :
  mapM (fun i => f (nth i l d)) (seq 0 (List.length l)) = mapM f l.
Proof.
  induction l as [|a r IH]; [reflexivity|].
  cbn [List.length seq mapM nth]. rewrite <- seq_shift, mapM_map.
  cbn [nth]. now rewrite IH.
Qed.

Lemma CSVlistAttributes_item_array (elems : list value) (i : nat) :
  ListofObj_to_DelimitedText.CSVlistAttributes_item (VArr elems) i
  = fmap csv_pair_end (ListofObj_Base.name_value_pair (nth i elems VUndefined)).
Proof.
  unfold ListofObj_to_DelimitedText.CSVlistAttributes_item,
    ListofObj_Base.name_value_pair, fmap.
  rewrite get_array_index. cbn [bind].
  destruct (get (nth i elems VUndefined) (lit "name")) as [n|e]; [|reflexivity].
  cbn [bind].
  destruct (get (nth i elems VUndefined) (lit "value")) as [x|e]; [|reflexivity].
  cbn [bind]. unfold csv_pair_end. now rewrite <- !app_assoc.
Qed.

Lemma attribute_list_formats (elems : list value) :
  ListofObj_Base.formatValue (VArr elems)
  = fmap (join (lit "; ")) (mapM ListofObj_Base.name_value_pair elems) /\
  ListofObj_to_DelimitedText.formatCSVcellvalues (VArr elems)
  = fmap (fun parts => concat (map csv_pair_end parts))
      (mapM ListofObj_Base.name_value_pair elems).
Proof.
  split; [reflexivity|].
  unfold ListofObj_to_DelimitedText.formatCSVcellvalues,
    ListofObj_to_DelimitedText.CSVlistAttributes.
  cbn [typeof]. rewrite get_array_length. cbn [bind].
  unfold ListofObj_to_DelimitedText.loop_count. cbn [toNumber].
  rewrite Nat2Z.id.
  rewrite (mapM_ext _ _ _ (fun i _ => CSVlistAttributes_item_array elems i)).
  rewrite (mapM_seq_nth (fun v => fmap csv_pair_end (ListofObj_Base.name_value_pair v))).
  rewrite mapM_fmap.
  now destruct (mapM ListofObj_Base.name_value_pair elems).
Qed.

(** X7: for an array of name/value pairs both sinks read the same pairs
    in the same order and fail on the same arrays: the shared formatter
    joins the pair texts with a semicolon and a space, the CSV coercion
    ends each of them with a semicolon, a line feed and a carriage
    return. *)
Theorem attribute_list_in_both_sinks (elems : list value) :
  ListofObj_Base.formatValue (VArr elems)
  = fmap (join (lit "; ")) (mapM ListofObj_Base.name_value_pair elems) /\
  ListofObj_to_DelimitedText.formatCSVcellvalues (VArr elems)
  = fmap (fun parts => concat (map csv_pair_end parts))
      (mapM ListofObj_Base.name_value_pair elems).
Proof. exact (attribute_list_formats elems). Qed.

Lemma name_value_pair_Throw (v : value) :
  (exists e, ListofObj_Base.name_value_pair v = Throw e) <-> is_nullish v = true.
Proof.
  unfold ListofObj_Base.name_value_pair. split.
  - intros [e H]. destruct (is_nullish v) eqn:E; [reflexivity|].
    destruct (get_succeeds v (lit "name") E) as [n Hn].
    destruct (get_succeeds v (lit "value") E) as [x Hx].
    rewrite Hn, Hx in H. discriminate H.
  - intros H. exists TypeError. now rewrite (get_nullish_TypeError v _ H).
Qed.

Lemma attribute_list_Throw_iff (elems : list value) :
  ((exists e, ListofObj_Base.formatValue (VArr elems) = Throw e) <->
   (exists v, In v elems /\ is_nullish v = true)) /\
  ((exists e, ListofObj_to_DelimitedText.formatCSVcellvalues (VArr elems) = Throw e) <->
   (exists v, In v elems /\ is_nullish v = true)).
Proof.
  destruct (attribute_list_formats elems) as [-> ->].
  assert (H : (exists e, mapM ListofObj_Base.name_value_pair elems = Throw e) <->
              (exists v, In v elems /\ is_nullish v = true)).
  { rewrite mapM_Throw_iff. split.
    - intros [v [e [Hin Hv]]]. exists v. split; [exact Hin|].
      apply name_value_pair_Throw. now exists e.
    - intros [v [Hin Hv]]. apply name_value_pair_Throw in Hv.
      destruct Hv as [e He]. now exists v, e. }
  rewrite <- H.
  destruct (mapM ListofObj_Base.name_value_pair elems) as [parts|e]; cbn [fmap bind].
  - split; split; intros [e He]; discriminate He.
  - split; split; intros _; now exists e.
Qed.

(** X15: an array of name/value pairs one of whose elements is null or
    undefined cannot be formatted: the table sink and the CSV coercion
    both throw on it.  For an array whose elements carry names and values
    that are null, undefined, booleans, numbers or strings (as the
    attribute nodes of an element do) this is the only failure: if either
    sink throws, one of the elements is null or undefined; any other
    element is read through its name and value properties, missing ones
    printing as undefined. *)
Theorem attribute_list_null_element_throws (elems : list value) :
  ((exists v, In v elems /\ is_nullish v = true) ->
   (exists e, ListofObj_Base.formatValue (VArr elems) = Throw e) /\
   (exists e, ListofObj_to_DelimitedText.formatCSVcellvalues (VArr elems) = Throw e)) /\
  (Forall plain_pair elems ->
   (exists e, ListofObj_Base.formatValue (VArr elems) = Throw e) \/
   (exists e, ListofObj_to_DelimitedText.formatCSVcellvalues (VArr elems) = Throw e) ->
   exists v, In v elems /\ is_nullish v = true).
Proof.
  destruct (attribute_list_Throw_iff elems) as [H1 H2]. split.
  - intros H. split; [now apply H1 | now apply H2].
  - intros _ [H|H]; [now apply H1 | now apply H2].
Qed.

Lemma attribute_list_null_element_witness :
  let elems := [VObj [(lit "name", VStr (lit "id")); (lit "value", VStr (lit "7"))];
                VUndefined] in
  Forall plain_pair elems /\
  (exists v, In v elems /\ is_nullish v = true) /\
  ((exists e, ListofObj_Base.formatValue (VArr elems) = Throw e) /\
   (exists e, ListofObj_to_DelimitedText.formatCSVcellvalues (VArr elems) = Throw e)) /\
  (exists v, In v elems /\ is_nullish v = true).
Proof.
  intros elems.
  assert (Hp : Forall plain_pair elems).
  { repeat (apply Forall_cons || apply Forall_nil); intros x [Hx|Hx];
      vm_compute in Hx; try discriminate Hx;
      inversion Hx; subst x; right; exact I. }
  assert (H : exists v, In v elems /\ is_nullish v = true).
  { exists VUndefined. split; [right; now left | reflexivity]. }
  split; [exact Hp|]. split; [exact H|].
  pose proof (proj1 (attribute_list_null_element_throws elems) H) as Ht.
  split; [exact Ht|].
  exact (proj2 (attribute_list_null_element_throws elems) Hp (or_introl (proj1 Ht))).
Defined.

(* ================================================================== *)
(** * The page header *)
(* ================================================================== *)

Lemma safe_tags_replace_tag_free (s : jsstring) :
  ~ In lt (PageProperty.safe_tags_replace s) /\
  ~ In gt (PageProperty.safe_tags_replace s).
Proof.
  unfold PageProperty.safe_tags_replace, replace_class.
  induction s as [|c r [IH1 IH2]]; [split; intros []|].
  cbn [flat_map]. rewrite !in_app_iff.
  destruct (existsb (N.eqb c) [amp; lt; gt]) eqn:E.
  - assert (H : ~ In lt (PageProperty.replaceTag c)
                /\ ~ In gt (PageProperty.replaceTag c)).
    { unfold PageProperty.replaceTag. simpl in E.
      destruct (N.eqb c amp); [split; vm_compute; intuition discriminate|].
      destruct (N.eqb c lt); [split; vm_compute; intuition discriminate|].
      destruct (N.eqb c gt); [split; vm_compute; intuition discriminate|].
      discriminate E. }
    tauto.
  - simpl in E. rewrite !orb_false_iff, !N.eqb_neq in E.
    destruct E as [_ [E1 [E2 _]]]. simpl. split; intros [[H|[]]|H]; auto.
Qed.

Lemma safe_tags_replace_nil (s : jsstring) :
  PageProperty.safe_tags_replace s = [] <-> s = [].
Proof.
  split; [|now intros ->].
  destruct s as [|c r]; [reflexivity|].
  unfold PageProperty.safe_tags_replace, replace_class. cbn [flat_map].
  destruct (existsb (N.eqb c) [amp; lt; gt]); [|discriminate].
  unfold PageProperty.replaceTag.
  destruct (N.eqb c amp); [discriminate|].
  destruct (N.eqb c lt); [discriminate|].
  destruct (N.eqb c gt); discriminate.
Qed.

(** X8: a value that is null, undefined, a boolean, a number or a string
    and is not taken for an http or https address never makes the header
    formatter throw, and the text it gives holds no less-than and no
    greater-than sign, so that it cannot open or close a tag; the text is
    empty exactly for null, undefined and values whose string form is
    blank. *)
Theorem formatObjvalues_plain_text_is_tag_free (P : platform) (v : value) :
  is_plain v ->
  PageProperty.isValidHttpUrl P v = false ->
  exists out,
    PageProperty.formatObjvalues P v = Ok out /\
    ~ In lt out /\ ~ In gt out /\
    (out = [] <-> is_nullish v = true \/ trim (toString v) = []).
Proof.
  intros _ H. unfold PageProperty.formatObjvalues. rewrite H.
  eexists. split; [reflexivity|].
  destruct (is_nullish v) eqn:En; cbn [orb].
  - split; [intros []|]. split; [intros []|]. split; auto.
  - destruct (trim (toString v)) as [|c r] eqn:Et; cbn [List.length Nat.eqb].
    + split; [intros []|]. split; [intros []|]. split; auto.
    + destruct (safe_tags_replace_tag_free (c :: r)) as [H1 H2].
      split; [exact H1|]. split; [exact H2|]. split.
      * intros Hn. apply (proj1 (safe_tags_replace_nil (c :: r))) in Hn.
        discriminate Hn.
      * intros [Hn|Hn]; discriminate Hn.
Qed.

Lemma formatObjvalues_plain_witness :
  let v := VStr (lit " <b>bold</b> & more ") in
  is_plain v /\
  PageProperty.isValidHttpUrl sample_platform v = false /\
  exists out,
    PageProperty.formatObjvalues sample_platform v = Ok out /\
    ~ In lt out /\ ~ In gt out /\
    (out = [] <-> is_nullish v = true \/ trim (toString v) = []).
Proof.
  intros v.
  assert (Hp : is_plain v) by (right; exact I).
  split; [exact Hp|]. split; [reflexivity|].
  exact (formatObjvalues_plain_text_is_tag_free sample_platform v Hp eq_refl).
Defined.

Lemma formatObjvalues_Throw_iff (P : platform) (v : value) (e : error) :
  PageProperty.formatObjvalues P v = Throw e <->
  PageProperty.isValidHttpUrl P v = true /\
  decodeURIComponent P (toString v) = Throw e.
Proof.
  unfold PageProperty.formatObjvalues.
  destruct (PageProperty.isValidHttpUrl P v).
  - destruct (decodeURIComponent P (toString v)) as [d|e']; cbn [bind].
    + split; [discriminate | intros [_ H]; discriminate H].
    + split; [intros H; split; [reflexivity|exact H] | intros [_ H]; exact H].
  - split; [discriminate | intros [H _]; discriminate H].
Qed.

Lemma displayPageHeaders_Throw_iff (P : platform) (this : PageProperty.t) :
  (exists e, PageProperty.displayPageHeaders P this = Throw e) <->
  (exists key v e,
     In (key, v) (PageProperty.objProperty this) /\
     PageProperty.isValidHttpUrl P v = true /\
     decodeURIComponent P (toString v) = Throw e).
Proof.
  unfold PageProperty.displayPageHeaders.
  assert (Hm : (exists e, mapM (PageProperty.header_entry P)
                            (PageProperty.objProperty this) = Throw e) <->
               (exists key v e,
                  In (key, v) (PageProperty.objProperty this) /\
                  PageProperty.isValidHttpUrl P v = true /\
                  decodeURIComponent P (toString v) = Throw e)).
  { rewrite mapM_Throw_iff. split.
    - intros [[key v] [e [Hin H]]]. unfold PageProperty.header_entry in H.
      cbn [fst snd] in H.
      destruct (PageProperty.formatObjvalues P v) as [text|e'] eqn:F;
        cbn [bind] in H; [discriminate|].
      apply formatObjvalues_Throw_iff in F. destruct F as [F1 F2].
      exists key, v, e'. auto.
    - intros [key [v [e [Hin [H1 H2]]]]]. exists (key, v), e.
      split; [exact Hin|]. unfold PageProperty.header_entry. cbn [fst snd].
      now rewrite (proj2 (formatObjvalues_Throw_iff P v e) (conj H1 H2)). }
  rewrite <- Hm.
  destruct (mapM (PageProperty.header_entry P) (PageProperty.objProperty this))
    as [entries|e]; cbn [bind].
  - split; intros [e H]; discriminate H.
  - split; intros _; now exists e.
Qed.

(** X9: the page header cannot be rendered when one of the page
    properties is taken for an http or https address that
    [decodeURIComponent] rejects: the decoding error of the link text is
    not caught.  For page properties whose values are null, undefined,
    booleans, numbers or strings (the main flow passes the address and
    the title of the page, a length and the chosen tool) nothing else in
    the header can throw: if rendering throws, one of the values is such
    an address. *)
Theorem displayPageHeaders_undecodable_url_throws (P : platform) (this : PageProperty.t) :
  ((exists key v e,
      In (key, v) (PageProperty.objProperty this) /\
      PageProperty.isValidHttpUrl P v = true /\
      decodeURIComponent P (toString v) = Throw e) ->
   exists e, PageProperty.displayPageHeaders P this = Throw e) /\
  (Forall (fun kv => is_plain (snd kv)) (PageProperty.objProperty this) ->
   (exists e, PageProperty.displayPageHeaders P this = Throw e) ->
   exists key v e,
     In (key, v) (PageProperty.objProperty this) /\
     PageProperty.isValidHttpUrl P v = true /\
     decodeURIComponent P (toString v) = Throw e).
Proof.
  split.
  - apply (proj2 (displayPageHeaders_Throw_iff P this)).
  - intros _. apply (proj1 (displayPageHeaders_Throw_iff P this)).
Qed.

Lemma displayPageHeaders_undecodable_url_witness :
  let this := PageProperty.new
                [(lit "Page URL", VStr (lit "http://example.com/?q=100%"));
                 (lit "Page Title Length", VNum 12)]
                (lit "Report") in
  Forall (fun kv => is_plain (snd kv)) (PageProperty.objProperty this) /\
  (exists key v e,
     In (key, v) (PageProperty.objProperty this) /\
     PageProperty.isValidHttpUrl sample_platform v = true /\
     decodeURIComponent sample_platform (toString v) = Throw e) /\
  (exists e, PageProperty.displayPageHeaders sample_platform this = Throw e) /\
  (exists key v e,
     In (key, v) (PageProperty.objProperty this) /\
     PageProperty.isValidHttpUrl sample_platform v = true /\
     decodeURIComponent sample_platform (toString v) = Throw e).
Proof.
  intros this.
  assert (Hp : Forall (fun kv => is_plain (snd kv)) (PageProperty.objProperty this)).
  { repeat (apply Forall_cons || apply Forall_nil); right; exact I. }
  assert (H : exists key v e,
             In (key, v) (PageProperty.objProperty this) /\
             PageProperty.isValidHttpUrl sample_platform v = true /\
             decodeURIComponent sample_platform (toString v) = Throw e).
  { exists (lit "Page URL"), (VStr (lit "http://example.com/?q=100%")),
      (Thrown (lit "URIError")).
    split; [now left|]. split; reflexivity. }
  split; [exact Hp|]. split; [exact H|].
  pose proof (proj1 (displayPageHeaders_undecodable_url_throws sample_platform this) H) as Ht.
  split; [exact Ht|].
  exact (proj2 (displayPageHeaders_undecodable_url_throws sample_platform this) Hp Ht).
Defined.

(* ================================================================== *)
(** * Cookies *)
(* ================================================================== *)

Lemma jsstring_eqb_eq (a b : jsstring) : JsString.eqb a b = true <-> a = b.
Proof.
  unfold JsString.eqb. destruct (list_eq_dec N.eq_dec a b); split; congruence.
Qed.

Lemma jsstring_eqb_refl (a : jsstring) : JsString.eqb a a = true.
Proof. now apply jsstring_eqb_eq. Qed.

Lemma jsstring_eqb_neq (a b : jsstring) : JsString.eqb a b = false <-> a <> b.
Proof.
  unfold JsString.eqb. destruct (list_eq_dec N.eq_dec a b); split; congruence.
Qed.

Section Lookup.

Implicit Types (props : list (jsstring * value)) (k key : jsstring) (v : value).

Lemma lookup_app k props1 props2 :
  lookup k (props1 ++ props2)
  = match lookup k props1 with
    | Some v => Some v
    | None => lookup k props2
    end.
Proof.
  induction props1 as [|[k' x] r IH]; simpl; [reflexivity|].
  now destruct (JsString.eqb k' k).
Qed.

Lemma lookup_None k props : lookup k props = None <-> ~ In k (map fst props).
Proof.
  induction props as [|[k' x] r IH]; simpl; [tauto|].
  destruct (JsString.eqb k' k) eqn:E.
  - apply jsstring_eqb_eq in E. split; [discriminate | intros H; tauto].
  - apply jsstring_eqb_neq in E. rewrite IH. tauto.
Qed.

Lemma lookup_In_NoDup k v props :
  NoDup (map fst props) -> In (k, v) props -> lookup k props = Some v.
Proof.
  induction props as [|[k' x] r IH]; simpl; intros Hnd Hin; [destruct Hin|].
  inversion Hnd as [|? ? Hk Hr]; subst.
  destruct Hin as [Heq|Hin].
  - inversion Heq; subst. now rewrite jsstring_eqb_refl.
  - destruct (JsString.eqb k' k) eqn:E; [|now apply IH].
    apply jsstring_eqb_eq in E. subst. exfalso. apply Hk.
    change k with (fst (k, v)). now apply in_map.
Qed.

Lemma replace_prop_keys key v props :
  map fst (replace_prop key v props) = map fst props.
Proof.
  induction props as [|[k' x] r IH]; simpl; [reflexivity|].
  destruct (JsString.eqb k' key); simpl; [reflexivity | now rewrite IH].
Qed.

Lemma lookup_replace_prop k key v props :
  lookup k (replace_prop key v props)
  = if JsString.eqb key k
    then match lookup key props with Some _ => Some v | None => None end
    else lookup k props.
Proof.
  induction props as [|[k' x] r IH]; simpl.
  - now destruct (JsString.eqb key k).
  - destruct (JsString.eqb k' key) eqn:E1; simpl.
    + apply jsstring_eqb_eq in E1. subst k'. now destruct (JsString.eqb key k).
    + rewrite IH. destruct (JsString.eqb k' k) eqn:E2; [|reflexivity].
      apply jsstring_eqb_eq in E2. subst k'.
      apply jsstring_eqb_neq in E1.
      assert (E3 : JsString.eqb key k = false)
        by (apply jsstring_eqb_neq; congruence).
      now rewrite E3.
Qed.

Lemma insert_index_keys n key v props x :
  In x (map fst (insert_index n key v props)) <-> x = key \/ In x (map fst props).
Proof.
  induction props as [|[k' y] r IH]; simpl; [intuition|].
  destruct (as_array_index k') as [m|]; [destruct (n <? m)|]; simpl;
    rewrite ?IH; intuition.
Qed.

Lemma insert_index_NoDup n key v props :
  ~ In key (map fst props) -> NoDup (map fst props) ->
  NoDup (map fst (insert_index n key v props)).
Proof.
  induction props as [|[k' y] r IH]; simpl; intros Hk Hnd.
  - constructor; [intros []|constructor].
  - inversion Hnd as [|? ? Hk' Hr]; subst.
    destruct (as_array_index k') as [m|]; [destruct (n <? m)|]; simpl.
    + constructor; [exact Hk | exact Hnd].
    + constructor.
      * rewrite insert_index_keys. intros [->|H]; [apply Hk; now left|contradiction].
      * apply IH; [intros H; apply Hk; now right | exact Hr].
    + constructor; [exact Hk | exact Hnd].
Qed.

Lemma lookup_insert_index n k key v props :
  lookup key props = None ->
  lookup k (insert_index n key v props)
  = if JsString.eqb key k then Some v else lookup k props.
Proof.
  induction props as [|[k' y] r IH]; simpl; intros Hnone; [reflexivity|].
  destruct (JsString.eqb k' key) eqn:E; [discriminate|].
  destruct (as_array_index k') as [m|]; [destruct (n <? m)|]; simpl;
    try reflexivity.
  rewrite (IH Hnone). destruct (JsString.eqb k' k) eqn:E2; [|reflexivity].
  apply jsstring_eqb_eq in E2. subst k'.
  destruct (JsString.eqb key k) eqn:E3; [|reflexivity].
  apply jsstring_eqb_eq in E3. subst. now rewrite jsstring_eqb_refl in E.
Qed.

Lemma lookup_set_prop k key v props :
  k <> lit "__proto__" ->
  lookup k (set_prop key v props)
  = if JsString.eqb key k then Some v else lookup k props.
Proof.
  intros Hk. unfold set_prop.
  destruct (JsString.eqb key (lit "__proto__")) eqn:Ep.
  - apply jsstring_eqb_eq in Ep. subst key.
    destruct (JsString.eqb (lit "__proto__") k) eqn:E; [|reflexivity].
    apply jsstring_eqb_eq in E. congruence.
  - destruct (lookup key props) as [old|] eqn:El.
    + rewrite lookup_replace_prop, El. reflexivity.
    + destruct (as_array_index key) as [n|].
      * now apply lookup_insert_index.
      * rewrite lookup_app. simpl.
        destruct (JsString.eqb key k) eqn:E.
        -- apply jsstring_eqb_eq in E. subst. now rewrite El.
        -- now destruct (lookup k props).
Qed.

Lemma set_prop_NoDup key v props :
  NoDup (map fst props) -> NoDup (map fst (set_prop key v props)).
Proof.
  intros Hnd. unfold set_prop.
  destruct (JsString.eqb key (lit "__proto__")); [exact Hnd|].
  destruct (lookup key props) as [old|] eqn:El.
  - now rewrite replace_prop_keys.
  - apply lookup_None in El. destruct (as_array_index key) as [n|].
    + now apply insert_index_NoDup.
    + rewrite map_app. simpl. apply NoDup_app; trivial.
      * constructor; [intros []|constructor].
      * intros x Hx [<-|[]]. contradiction.
Qed.

End Lookup.

Lemma cookie_fold_lookup (P : platform) (k : jsstring) (entries : list jsstring)
    (acc : list (jsstring * value)) :
  k <> lit "__proto__" ->
  lookup k (fold_left (cookie_step P) entries acc)
  = match lookup k (rev (cookie_bindings P entries)) with
    | Some v => Some v
    | None => lookup k acc
    end.
Proof.
  intros Hk. revert acc.
  induction entries as [|c r IH]; intros acc; [reflexivity|].
  cbn [fold_left cookie_bindings flat_map]. fold (cookie_bindings P r).
  rewrite IH, rev_app_distr, lookup_app.
  destruct (lookup k (rev (cookie_bindings P r))); [reflexivity|].
  unfold cookie_step. destruct (cookie_binding P c) as [[name v]|]; [|reflexivity].
  rewrite (lookup_set_prop k name v acc Hk). simpl.
  now destruct (JsString.eqb name k).
Qed.

Lemma cookie_fold_NoDup (P : platform) (entries : list jsstring)
    (acc : list (jsstring * value)) :
  NoDup (map fst acc) -> NoDup (map fst (fold_left (cookie_step P) entries acc)).
Proof.
  revert acc. induction entries as [|c r IH]; intros acc H; [exact H|].
  cbn [fold_left]. apply IH. unfold cookie_step.
  destruct (cookie_binding P c) as [[name v]|]; [|exact H].
  now apply set_prop_NoDup.
Qed.

Lemma getCookieObject_NoDup (P : platform) (doc : jsstring) :
  NoDup (map fst (getCookieObject P doc)).
Proof.
  unfold getCookieObject. destruct doc; [constructor|].
  apply cookie_fold_NoDup. constructor.
Qed.

Lemma getCookieObject_lookup (P : platform) (doc k : jsstring) :
  k <> lit "__proto__" ->
  lookup k (getCookieObject P doc)
  = lookup k (rev (cookie_bindings P (split_str (lit "; ") doc))).
Proof.
  intros Hk.
  unfold getCookieObject. destruct doc as [|c r]; [reflexivity|].
  rewrite (cookie_fold_lookup P k _ [] Hk).
  now destruct (lookup k (rev (cookie_bindings P (split_str (lit "; ") (c :: r))))).
Qed.

(** Splitting the entries joined by the separator gives the entries
    back. *)
Lemma starts_with_separator (c : char16) (r : jsstring) :
  starts_with (lit "; ") (c :: r)
  = (N.eqb 59 c && match r with d :: _ => N.eqb 32 d | [] => false end)%bool.
Proof.
  change (lit "; ") with [59%N; 32%N]. cbn [starts_with].
  destruct r as [|d r']; [reflexivity|]. now rewrite andb_true_r.
Qed.

Lemma split_go_last (e cur : jsstring) :
  has_separator e = false ->
  split_go (lit "; ") e 0 cur = [rev cur ++ e].
Proof.
  revert cur. induction e as [|c r IH]; intros cur H.
  - cbn [split_go]. now rewrite app_nil_r.
  - cbn [has_separator] in H. apply orb_false_iff in H. destruct H as [H1 H2].
    cbn [split_go]. rewrite starts_with_separator.
    rewrite (N.eqb_sym 59 c).
    replace (match r with d :: _ => N.eqb 32 d | [] => false end)
      with (match r with d :: _ => N.eqb d 32 | [] => false end)
      by (destruct r; [reflexivity | apply N.eqb_sym]).
    rewrite H1. rewrite (IH (c :: cur) H2). cbn [rev].
    now rewrite <- app_assoc.
Qed.

Lemma split_go_more (e rest cur : jsstring) :
  has_separator e = false ->
  split_go (lit "; ") (e ++ lit "; " ++ rest) 0 cur
  = (rev cur ++ e) :: split_go (lit "; ") rest 0 [].
Proof.
  revert cur. induction e as [|c r IH]; intros cur H.
  - change (lit "; ") with [59%N; 32%N]. cbn [app split_go starts_with].
    rewrite !N.eqb_refl. cbn [andb List.length Nat.sub].
    now rewrite app_nil_r.
  - cbn [has_separator] in H. apply orb_false_iff in H. destruct H as [H1 H2].
    cbn [app split_go]. rewrite starts_with_separator.
    assert (E : (N.eqb 59 c && match r ++ lit "; " ++ rest with
                               | d :: _ => N.eqb 32 d
                               | [] => false
                               end)%bool = false).
    { rewrite (N.eqb_sym 59 c). destruct (N.eqb c 59); [|reflexivity].
      cbn [andb] in H1 |- *. destruct r as [|d r'].
      - reflexivity.
      - cbn [app]. now rewrite N.eqb_sym. }
    rewrite E. rewrite (IH (c :: cur) H2). cbn [rev].
    now rewrite <- app_assoc.
Qed.

Lemma split_str_join (entries : list jsstring) :
  entries <> [] ->
  Forall (fun e => has_separator e = false) entries ->
  split_str (lit "; ") (join (lit "; ") entries) = entries.
Proof.
  unfold split_str. intros Hne H.
  induction entries as [|e r IH]; [contradiction|].
  inversion H as [|? ? He Hr]; subst.
  destruct r as [|e' r'].
  - cbn [join]. now rewrite (split_go_last e [] He).
  - change (join (lit "; ") (e :: e' :: r'))
      with (e ++ lit "; " ++ join (lit "; ") (e' :: r')).
    rewrite (split_go_more e _ [] He). cbn [rev app].
    rewrite IH; [reflexivity | discriminate | exact Hr].
Qed.

Lemma join_nil (entries : list jsstring) :
  join (lit "; ") entries = [] -> entries = [] \/ entries = [[]].
Proof.
  destruct entries as [|e r]; [now left|].
  destruct r as [|e' r'].
  - cbn [join]. intros ->. now right.
  - change (join (lit "; ") (e :: e' :: r'))
      with (e ++ lit "; " ++ join (lit "; ") (e' :: r')).
    intros H. apply app_eq_nil in H. destruct H as [_ H]. discriminate H.
Qed.

(** One entry of the cookie text binds what its contract says. *)
Lemma index_of_Some (c : char16) (s : jsstring) (i : nat) :
  index_of c s = Some i ->
  s = firstn i s ++ c :: skipn (S i) s /\ ~ In c (firstn i s).
Proof.
  revert i. induction s as [|x r IH]; intros i H; [discriminate|].
  cbn [index_of] in H. destruct (N.eqb x c) eqn:E.
  - inversion H; subst i. apply N.eqb_eq in E. subst x.
    split; [reflexivity | intros []].
  - destruct (index_of c r) as [j|]; [|discriminate].
    cbn [option_map] in H. inversion H; subst i.
    destruct (IH j eq_refl) as [Hs Hn]. split.
    + change (x :: r = x :: (firstn j r ++ c :: skipn (S j) r)).
      f_equal. exact Hs.
    + cbn [firstn]. intros [Hx|Hx]; [|contradiction].
      apply N.eqb_neq in E. contradiction.
Qed.

Lemma index_of_first (c : char16) (pre post : jsstring) :
  ~ In c pre -> index_of c (pre ++ c :: post) = Some (List.length pre).
Proof.
  induction pre as [|x r IH]; intros H; cbn [app index_of List.length].
  - now rewrite N.eqb_refl.
  - destruct (N.eqb x c) eqn:E.
    + apply N.eqb_eq in E. exfalso. apply H. now left.
    + rewrite IH; [reflexivity|]. intros Hin. apply H. now right.
Qed.

Lemma cookie_binding_binds (P : platform) (entry k : jsstring) (v : value) :
  cookie_binding P entry = Some (k, v) <-> entry_binds P entry k v.
Proof.
  unfold cookie_binding, entry_binds. split.
  - destruct (index_of 61%N entry) as [i|] eqn:E; [|discriminate].
    destruct (index_of_Some _ _ _ E) as [Hs Hn].
    rewrite Nat.add_1_r. intros H.
    exists (firstn i entry), (skipn (S i) entry).
    split; [exact Hs|]. split; [exact Hn|].
    destruct (decodeURIComponent P (skipn (S i) entry));
      inversion H; subst; split; reflexivity.
  - intros [pre [post [-> [Hn [-> ->]]]]].
    assert (E : index_of 61%N (pre ++ 61%N :: post) = Some (List.length pre))
      by (apply index_of_first; exact Hn).
    rewrite E. clear E. cbv beta iota.
    assert (E1 : firstn (List.length pre) (pre ++ 61%N :: post) = pre).
    { rewrite firstn_app, firstn_all, Nat.sub_diag. cbn [firstn].
      apply app_nil_r. }
    assert (E2 : skipn (List.length pre + 1) (pre ++ 61%N :: post) = post).
    { rewrite skipn_app, skipn_all2 by lia.
      replace (List.length pre + 1 - List.length pre) with 1 by lia.
      reflexivity. }
    rewrite E1, E2.
    now destruct (decodeURIComponent P post).
Qed.

(** The last entry that binds a name is the one a lookup of the bindings
    in reverse order finds. *)
Lemma cookie_bindings_keys (P : platform) (k : jsstring) (entries : list jsstring) :
  In k (map fst (cookie_bindings P entries)) <->
  exists entry v, In entry entries /\ cookie_binding P entry = Some (k, v).
Proof.
  induction entries as [|e r IH].
  - split; [intros [] | intros [entry [v [[] _]]]].
  - cbn [cookie_bindings flat_map]. fold (cookie_bindings P r).
    rewrite map_app, in_app_iff, IH. split.
    + intros [H|[entry [v [Hin Hb]]]].
      * destruct (cookie_binding P e) as [[name x]|] eqn:B; [|destruct H].
        destruct H as [H|[]]. cbn [fst] in H. subst name.
        exists e, x. split; [now left | exact B].
      * exists entry, v. split; [now right | exact Hb].
    + intros [entry [v [[<-|Hin] Hb]]].
      * left. rewrite Hb. now left.
      * right. now exists entry, v.
Qed.

Lemma cookie_bindings_unbound (P : platform) (k : jsstring) (entries : list jsstring) :
  lookup k (rev (cookie_bindings P entries)) = None <->
  forall entry v, In entry entries -> cookie_binding P entry <> Some (k, v).
Proof.
  rewrite lookup_None, map_rev, <- in_rev, cookie_bindings_keys. split.
  - intros H entry v Hin Hb. apply H. now exists entry, v.
  - intros H [entry [v [Hin Hb]]]. now apply (H entry v).
Qed.

Lemma cookie_bindings_last (P : platform) (k : jsstring) (v : value)
    (entries : list jsstring) :
  lookup k (rev (cookie_bindings P entries)) = Some v <->
  exists before entry after,
    entries = before ++ entry :: after /\
    cookie_binding P entry = Some (k, v) /\
    forall entry' v', In entry' after -> cookie_binding P entry' <> Some (k, v').
Proof.
  induction entries as [|e r IH].
  - split; [discriminate|]. intros [before [entry [after [H _]]]].
    now destruct before.
  - cbn [cookie_bindings flat_map]. fold (cookie_bindings P r).
    rewrite rev_app_distr, lookup_app.
    destruct (lookup k (rev (cookie_bindings P r))) as [v1|] eqn:L.
    + split.
      * intros H. inversion H; subst v1.
        destruct (proj1 IH eq_refl) as [before [entry [after [Hr [Hb Ha]]]]].
        exists (e :: before), entry, after.
        split; [now rewrite Hr|]. split; assumption.
      * intros [before [entry [after [Hr [Hb Ha]]]]].
        destruct before as [|b before]; cbn [app] in Hr; inversion Hr; subst.
        -- exfalso.
           assert (Hnone : lookup k (rev (cookie_bindings P after)) = None).
           { apply cookie_bindings_unbound. intros entry' v' Hin. now apply Ha. }
           congruence.
        -- rewrite (proj2 IH); [reflexivity|]. now exists before, entry, after.
    + pose proof (proj1 (cookie_bindings_unbound P k r) L) as Hnone. split.
      * intros H. exists [], e, r. split; [reflexivity|]. split.
        -- destruct (cookie_binding P e) as [[name x]|]; [|discriminate H].
           cbn [rev app lookup] in H.
           destruct (JsString.eqb name k) eqn:E; [|discriminate H].
           apply jsstring_eqb_eq in E. now inversion H; subst.
        -- intros entry' v' Hin. now apply Hnone.
      * intros [before [entry [after [Hr [Hb Ha]]]]].
        destruct before as [|b before]; cbn [app] in Hr; inversion Hr; subst.
        -- rewrite Hb. cbn [rev app lookup]. now rewrite jsstring_eqb_refl.
        -- exfalso. apply (Hnone entry v); [|exact Hb].
           apply in_or_app. right. now left.
Qed.

(** X10: for a cookie text that lists its entries separated by a
    semicolon and a space, the cookie object binds a name to a value
    exactly when the last entry that carries this name carries this
    value.  An entry carries the trimmed text before its first equals
    sign as its name, and as its value the decoded text after that sign,
    or that text as it is written when it cannot be decoded; an entry
    without an equals sign carries nothing.  No name occurs twice in the
    object. *)
Theorem getCookieObject_last_binding_wins
    (P : platform) (entries : list jsstring) (k : jsstring) (v : value) :
  Forall (fun e => has_separator e = false) entries ->
  k <> lit "__proto__" ->
  let cookieObject := getCookieObject P (join (lit "; ") entries) in
  NoDup (map fst cookieObject) /\
  (lookup k cookieObject = Some v <->
   exists before entry after,
     entries = before ++ entry :: after /\
     entry_binds P entry k v /\
     forall entry' v', In entry' after -> ~ entry_binds P entry' k v').
Proof.
  intros Hfree Hk cookieObject. subst cookieObject.
  split; [apply getCookieObject_NoDup|].
  assert (Hb : (exists before entry after,
                  entries = before ++ entry :: after /\
                  entry_binds P entry k v /\
                  forall entry' v', In entry' after -> ~ entry_binds P entry' k v')
               <-> lookup k (rev (cookie_bindings P entries)) = Some v).
  { rewrite cookie_bindings_last. split.
    - intros [before [entry [after [He [Hbind Hafter]]]]].
      exists before, entry, after. split; [exact He|].
      split; [now apply cookie_binding_binds|].
      intros entry' v' Hin Hb. apply (Hafter entry' v' Hin).
      now apply cookie_binding_binds.
    - intros [before [entry [after [He [Hbind Hafter]]]]].
      exists before, entry, after. split; [exact He|].
      split; [now apply cookie_binding_binds|].
      intros entry' v' Hin Hb. apply (Hafter entry' v' Hin).
      now apply cookie_binding_binds. }
  rewrite Hb.
  destruct (join (lit "; ") entries) as [|c r] eqn:J.
  - destruct (join_nil entries J) as [->| ->]; reflexivity.
  - rewrite (getCookieObject_lookup P (c :: r) k Hk), <- J.
    rewrite split_str_join; [reflexivity| |exact Hfree].
    intros ->. discriminate J.
Qed.

Lemma getCookieObject_witness :
  let entries := [lit "theme=dark"; lit "broken"; lit " id = 7";
                  lit "theme=light%"; lit "a=b=c"] in
  let cookieObject := getCookieObject sample_platform (join (lit "; ") entries) in
  Forall (fun e => has_separator e = false) entries /\
  lit "theme" <> lit "__proto__" /\
  (exists before entry after,
     entries = before ++ entry :: after /\
     entry_binds sample_platform entry (lit "theme") (VStr (lit "light%")) /\
     forall entry' v',
       In entry' after -> ~ entry_binds sample_platform entry' (lit "theme") v') /\
  lookup (lit "theme") cookieObject = Some (VStr (lit "light%")).
Proof.
  intros entries cookieObject.
  assert (Hfree : Forall (fun e => has_separator e = false) entries).
  { repeat (apply Forall_cons || apply Forall_nil); reflexivity. }
  assert (Hk : lit "theme" <> lit "__proto__") by discriminate.
  assert (H : exists before entry after,
             entries = before ++ entry :: after /\
             entry_binds sample_platform entry (lit "theme") (VStr (lit "light%")) /\
             forall entry' v',
               In entry' after ->
               ~ entry_binds sample_platform entry' (lit "theme") v').
  { exists [lit "theme=dark"; lit "broken"; lit " id = 7"],
      (lit "theme=light%"), [lit "a=b=c"].
    split; [reflexivity|]. split.
    - exists (lit "theme"), (lit "light%").
      split; [reflexivity|]. split; [vm_compute; intuition discriminate|].
      split; reflexivity.
    - intros entry' v' [<-|[]] Hb.
      apply cookie_binding_binds in Hb. vm_compute in Hb. discriminate Hb. }
  split; [exact Hfree|]. split; [exact Hk|]. split; [exact H|].
  exact (proj2 (proj2 (getCookieObject_last_binding_wins sample_platform entries
                         (lit "theme") (VStr (lit "light%")) Hfree Hk)) H).
Defined.

Lemma array_set_last (arr : js_array) (x : value) :
  array_set (List.length arr) x (arr ++ [Some x]) = arr ++ [Some x].
Proof.
  unfold array_set. rewrite length_app. cbn [List.length].
  destruct (Nat.ltb_spec (List.length arr) (List.length arr + 1)) as [_|H]; [|lia].
  rewrite firstn_app, firstn_all, Nat.sub_diag. cbn [firstn].
  rewrite app_nil_r. f_equal. f_equal.
  rewrite skipn_app, skipn_all2 by lia.
  replace (S (List.length arr) - List.length arr) with 1 by lia. reflexivity.
Qed.

Lemma collection_fold (cookieObject : list (jsstring * value))
    (keys : list jsstring) (arr : js_array) :
  (forall k, In k keys -> as_array_index k = None) ->
  fold_left (collection_step cookieObject)
    (combine keys (seq (List.length arr) (List.length keys))) arr
  = arr ++ map (fun k => Some (cookie_item k
                                 (match lookup k cookieObject with
                                  | Some v => v
                                  | None => VUndefined
                                  end))) keys.
Proof.
  revert arr. induction keys as [|k r IH]; intros arr H.
  - simpl. now rewrite app_nil_r.
  - cbn [List.length seq combine fold_left map].
    unfold collection_step at 2. cbn [fst snd].
    rewrite (H k (or_introl eq_refl)), array_set_last.
    set (item := Some (cookie_item k _)).
    replace (S (List.length arr)) with (List.length (arr ++ [item]))
      by (rewrite length_app; simpl; lia).
    rewrite IH by (intros k' Hk'; apply H; now right).
    now rewrite <- app_assoc.
Qed.

Lemma cookiesToCollection_plain (cookieObject : list (jsstring * value)) :
  NoDup (map fst cookieObject) ->
  (forall k, In k (map fst cookieObject) -> as_array_index k = None) ->
  cookiesToCollection cookieObject
  = map (fun kv => Some (cookie_item (fst kv) (snd kv))) cookieObject.
Proof.
  intros Hnd Hidx. unfold cookiesToCollection.
  pose proof (collection_fold cookieObject (map fst cookieObject) [] Hidx) as Hf.
  cbn [List.length app] in Hf. cbv zeta. rewrite Hf. rewrite map_map. apply map_ext_in. intros [k v] Hin. cbn [fst snd].
  now rewrite (lookup_In_NoDup k v cookieObject Hnd Hin).
Qed.

Lemma cookie_row_resolved (i : nat) (k : jsstring) (v : value) :
  (row <- mapM (ListofObj_Base.resolveField (cookie_item k v)) (map snd cookie_schema) ;;
   Ok (VNum (Z.of_nat i + 1) :: row))
  = Ok (cookie_row i (k, v)).
Proof. reflexivity. Qed.

(** X11: for a cookie object none of whose names is an array index, the
    collection holds exactly one item per cookie, in the order of the
    object, each with the name and the value of its cookie; and the rows
    the cookie tool builds from it are, at index i, the ordinal i + 1, the
    name and the value of cookie i. *)
Theorem cookie_collection_one_item_per_cookie (cookieObject : list (jsstring * value)) :
  NoDup (map fst cookieObject) ->
  (forall k, In k (map fst cookieObject) -> as_array_index k = None) ->
  cookiesToCollection cookieObject
  = map (fun kv => Some (cookie_item (fst kv) (snd kv))) cookieObject /\
  exists rows,
    ListofObj_Base.buildRows
      (ListofObj_Base.new cookie_schema (elements (cookiesToCollection cookieObject)))
    = Ok rows /\
    List.length rows = List.length cookieObject /\
    forall i kv, nth_error cookieObject i = Some kv ->
                 nth_error rows i = Some (cookie_row i kv).
Proof.
  intros Hnd Hidx.
  pose proof (cookiesToCollection_plain cookieObject Hnd Hidx) as Hc.
  split; [exact Hc|]. rewrite Hc. unfold elements. rewrite map_map.
  cbn [fst snd].
  exists (map (fun i => cookie_row i (nth i cookieObject ([], VUndefined)))
            (seq 0 (List.length cookieObject))).
  split; [|split].
  - unfold ListofObj_Base.buildRows.
    cbn [ListofObj_Base.collection ListofObj_Base.fields ListofObj_Base.new].
    rewrite length_map. apply mapM_pure. intros i Hi. apply in_seq in Hi.
    cbv zeta.
    rewrite (nth_indep _ VUndefined
               ((fun kv : jsstring * value => cookie_item (fst kv) (snd kv))
                  ([], VUndefined))) by (rewrite length_map; lia).
    rewrite (map_nth (fun kv : jsstring * value => cookie_item (fst kv) (snd kv))).
    destruct (nth i cookieObject ([], VUndefined)) as [k v]. cbn [fst snd].
    apply cookie_row_resolved.
  - now rewrite length_map, length_seq.
  - intros i kv Hi.
    assert (Hlt : i < List.length cookieObject)
      by (apply nth_error_Some; congruence).
    rewrite nth_error_map, nth_error_seq_lt by exact Hlt. cbn [option_map Nat.add].
    now rewrite (nth_error_nth _ _ _ Hi).
Qed.

Lemma cookie_collection_witness :
  let obj := getCookieObject sample_platform (lit "theme=dark; id=7") in
  NoDup (map fst obj) /\
  (forall k, In k (map fst obj) -> as_array_index k = None) /\
  cookiesToCollection obj
  = map (fun kv => Some (cookie_item (fst kv) (snd kv))) obj /\
  exists rows,
    ListofObj_Base.buildRows
      (ListofObj_Base.new cookie_schema (elements (cookiesToCollection obj)))
    = Ok rows /\
    List.length rows = List.length obj /\
    forall i kv, nth_error obj i = Some kv ->
                 nth_error rows i = Some (cookie_row i kv).
Proof.
  intros obj.
  assert (Hnd : NoDup (map fst obj)) by apply getCookieObject_NoDup.
  assert (Hidx : forall k, In k (map fst obj) -> as_array_index k = None).
  { intros k Hk. vm_compute in Hk. destruct Hk as [<-|[<-|[]]]; reflexivity. }
  split; [exact Hnd|]. split; [exact Hidx|].
  exact (cookie_collection_one_item_per_cookie obj Hnd Hidx).
Defined.

(* ================================================================== *)
(** * The meta tag tool *)
(* ================================================================== *)

Lemma get_Throw (v : value) (key : jsstring) (e : error) :
  get v key = Throw e -> is_nullish v = true.
Proof.
  intros H. destruct (is_nullish v) eqn:E; [reflexivity|].
  destruct (get_succeeds v key E) as [x Hx]. congruence.
Qed.

Lemma attribute_value_name (el : value) :
  has_name_attribute el -> succeeds (attribute_value (lit "name") el).
Proof.
  intros [attributes [a [H1 [H2 H3]]]]. unfold attribute_value.
  rewrite H1. cbn [bind]. rewrite H2. cbn [bind]. now apply get_succeeds.
Qed.

Lemma attribute_value_content_Throw (el : value) :
  has_name_attribute el ->
  (exists e, attribute_value (lit "content") el = Throw e) <->
  lacks_content_attribute el.
Proof.
  intros [attributes [a [H1 [H2 H3]]]]. unfold attribute_value, lacks_content_attribute.
  rewrite H1. cbn [bind].
  assert (Hattr : is_nullish attributes = false).
  { destruct (is_nullish attributes) eqn:E; [|reflexivity].
    rewrite (get_nullish_TypeError attributes _ E) in H2. discriminate H2. }
  destruct (get_succeeds attributes (lit "content") Hattr) as [c Hc].
  rewrite Hc. cbn [bind]. split.
  - intros [e He]. apply get_Throw in He. exists attributes, c. auto.
  - intros [attributes' [c' [G1 [G2 G3]]]].
    assert (attributes' = attributes) by congruence. subst attributes'.
    assert (c' = c) by congruence. subst c'.
    exists TypeError. now apply get_nullish_TypeError.
Qed.

(** X12: on elements that carry a name attribute, as the selector of the
    meta tag tool picks them, building the rows of the tool throws exactly
    when one of the elements has no content attribute. *)
Theorem meta_tool_throws_iff_content_missing (c : list value) :
  Forall has_name_attribute c ->
  (exists e, ListofObj_Base.buildRows (ListofObj_Base.new meta_schema c) = Throw e) <->
  (exists el, In el c /\ lacks_content_attribute el).
Proof.
  intros Hall. rewrite buildRows_Throw_iff. split.
  - intros [f [el [e [Hf [Hel He]]]]].
    exists el. split; [exact Hel|].
    pose proof (proj1 (Forall_forall _ _) Hall el Hel) as Hname.
    apply (attribute_value_content_Throw el Hname).
    cbn [meta_schema map snd] in Hf.
    destruct Hf as [Hf|[Hf|[Hf|[]]]]; inversion Hf; subst; clear Hf.
    + destruct (attribute_value_name el Hname) as [x Hx]. congruence.
    + destruct (attribute_value (lit "content") el) as [x|e'];
        [discriminate He | now exists e'].
    + destruct (attribute_value (lit "content") el) as [x|e'];
        [discriminate He | now exists e'].
  - intros [el [Hel Hlack]].
    pose proof (proj1 (Forall_forall _ _) Hall el Hel) as Hname.
    destruct (proj2 (attribute_value_content_Throw el Hname) Hlack) as [e He].
    eexists. exists el, e. split; [right; left; reflexivity|].
    split; [exact Hel|]. cbv beta. now rewrite He.
Qed.

Lemma meta_tool_witness :
  let c := [meta_element [(lit "name", lit "description"); (lit "content", lit "A page")];
            meta_element [(lit "name", lit "viewport")]] in
  Forall has_name_attribute c /\
  (exists el, In el c /\ lacks_content_attribute el) /\
  (exists e, ListofObj_Base.buildRows (ListofObj_Base.new meta_schema c) = Throw e).
Proof.
  intros c.
  assert (Hall : Forall has_name_attribute c).
  { repeat constructor; eexists; eexists;
      (split; [reflexivity|]); (split; [reflexivity|]); reflexivity. }
  assert (Hlack : exists el, In el c /\ lacks_content_attribute el).
  { exists (meta_element [(lit "name", lit "viewport")]).
    split; [right; now left|].
    eexists. eexists. split; [reflexivity|]. split; reflexivity. }
  split; [exact Hall|]. split; [exact Hlack|].
  exact (proj2 (meta_tool_throws_iff_content_missing c Hall) Hlack).
Defined.

(* ================================================================== *)
(** * File names *)
(* ================================================================== *)

Section Sublists.

Variable Q : char16 -> Prop.

Lemma dropWhile_Forall (p : char16 -> bool) (s : jsstring) :
  Forall Q s -> Forall Q (dropWhile p s).
Proof.
  induction s as [|c r IH]; simpl; intros H; [exact H|].
  destruct (p c); [apply IH; now inversion H | exact H].
Qed.

Lemma trim_Forall (s : jsstring) : Forall Q s -> Forall Q (trim s).
Proof.
  intros H. unfold trim, trimEnd, trimStart.
  apply Forall_rev, dropWhile_Forall, Forall_rev, dropWhile_Forall, H.
Qed.

Lemma strip_trailing_Forall (s : jsstring) :
  Forall Q s -> Forall Q (FileName.strip_trailing s).
Proof.
  intros H. unfold FileName.strip_trailing.
  apply Forall_rev, dropWhile_Forall, Forall_rev, H.
Qed.

Lemma collapse_space_Forall (b : bool) (s : jsstring) :
  Q 32%N -> Forall Q s -> Forall Q (FileName.collapse_space b s).
Proof.
  intros H32. revert b. induction s as [|c r IH]; intros b H; simpl; [constructor|].
  inversion H; subst.
  destruct (isWhiteSpace c); [destruct b|]; try constructor; auto.
Qed.

Lemma extension_suffix (s : jsstring) :
  exists pre, s = pre ++ FileName.extension s.
Proof.
  induction s as [|c r [pre IH]]; simpl; [now exists []|].
  destruct (N.eqb c 46 && negb (existsb (N.eqb 46) r)
            && match r with [] => false | _ => true end)%bool.
  - now exists [].
  - exists (c :: pre). simpl. now f_equal.
Qed.

Lemma extension_Forall (s : jsstring) :
  Forall Q s -> Forall Q (FileName.extension s).
Proof.
  intros H. destruct (extension_suffix s) as [pre Hp].
  rewrite Hp in H. now apply Forall_app in H.
Qed.

Lemma slice0_Forall (s : jsstring) (stop : Z) :
  Forall Q s -> Forall Q (FileName.slice0 s stop).
Proof.
  intros H. unfold FileName.slice0. cbv zeta.
  set (n := Z.to_nat _). rewrite <- (firstn_skipn n s) in H.
  now apply Forall_app in H.
Qed.

End Sublists.

Lemma underscore_name_char : name_char 95%N.
Proof. repeat split. Qed.

Lemma space_name_char : name_char 32%N.
Proof. repeat split. Qed.

Lemma cleaned_chars (nfkd : jsstring -> jsstring) (s : jsstring) :
  Forall name_char
    (replace_class FileName.illegal (fun _ => lit "_")
       (FileName.remove_if FileName.is_control
          (FileName.remove_if FileName.is_diacritic (nfkd s)))).
Proof.
  unfold replace_class, FileName.remove_if.
  set (t := nfkd s). clearbody t.
  induction t as [|c r IH]; [constructor|].
  cbn [filter]. destruct (FileName.is_diacritic c) eqn:Ed; cbn [negb]; [exact IH|].
  cbn [filter]. destruct (FileName.is_control c) eqn:Ec; cbn [negb]; [exact IH|].
  cbn [flat_map]. apply Forall_app. split; [|exact IH].
  fold (FileName.is_illegal c).
  destruct (FileName.is_illegal c) eqn:Ei.
  - repeat constructor.
  - repeat constructor; assumption.
Qed.

Lemma clean_name_chars (nfkd : jsstring -> jsstring) (s : jsstring) :
  Forall name_char (FileName.clean_name nfkd s).
Proof.
  unfold FileName.clean_name. cbv zeta.
  set (n := FileName.strip_trailing _).
  assert (Hn : Forall name_char n).
  { apply strip_trailing_Forall, trim_Forall, collapse_space_Forall;
      [exact space_name_char | apply cleaned_chars]. }
  assert (Hf : Forall name_char (lit "file")) by (repeat constructor).
  assert (Hs : Forall name_char (lit "_file")) by (repeat constructor).
  destruct n as [|c r].
  - destruct (FileName.is_reserved (lit "file")); [apply Forall_app|]; auto.
  - destruct (FileName.is_reserved (c :: r)); [apply Forall_app|]; auto.
Qed.

Lemma clean_name_nonempty (nfkd : jsstring -> jsstring) (s : jsstring) :
  FileName.clean_name nfkd s <> [].
Proof.
  unfold FileName.clean_name. cbv zeta.
  destruct (FileName.strip_trailing _) as [|c r].
  - destruct (FileName.is_reserved (lit "file")); discriminate.
  - destruct (FileName.is_reserved (c :: r)); discriminate.
Qed.

Lemma is_reserved_length (s : jsstring) :
  FileName.is_reserved s = true -> List.length s <= 4.
Proof.
  unfold FileName.is_reserved. cbv zeta. intros H.
  rewrite <- (length_map FileName.to_lower s).
  destruct (map FileName.to_lower s) as [|a [|b [|c [|d [|e r]]]]] eqn:E;
    simpl; try lia.
  exfalso. rewrite orb_false_r in H. cbn [existsb] in H.
  rewrite !orb_true_iff, !jsstring_eqb_eq in H.
  destruct H as [H|[H|[H|[H|H]]]]; discriminate H.
Qed.

Lemma clean_name_not_reserved (nfkd : jsstring -> jsstring) (s : jsstring) :
  FileName.is_reserved (FileName.clean_name nfkd s) = false.
Proof.
  unfold FileName.clean_name. cbv zeta.
  set (n := match FileName.strip_trailing _ with [] => lit "file" | _ => _ end).
  destruct (FileName.is_reserved n) eqn:E; [|exact E].
  destruct (FileName.is_reserved (n ++ lit "_file")) eqn:E2; [|reflexivity].
  apply is_reserved_length in E2. rewrite length_app in E2. simpl in E2. lia.
Qed.

Lemma slice0_length (s : jsstring) (stop : Z) :
  (0 <= stop <= Z.of_nat (List.length s))%Z ->
  List.length (FileName.slice0 s stop) = Z.to_nat stop.
Proof.
  intros H. unfold FileName.slice0. cbv zeta.
  destruct (Z.ltb_spec stop 0) as [Hl|Hl]; [lia|].
  rewrite length_firstn. lia.
Qed.

(** X13: whatever the input and the length limit, the file name holds no
    character a Windows file name cannot hold, no control character and no
    combining mark; it is never empty when the limit is at least one, and
    never one of the reserved device names when the limit is at least
    five.  An input that is not a string, or is the empty string, gives
    the name file. *)
Theorem sanitizeFileName_is_safe
    (nfkd : jsstring -> jsstring) (input : value) (maxLength : Z) :
  Forall name_char (FileName.sanitizeFileName nfkd input maxLength) /\
  ((1 <= maxLength)%Z -> FileName.sanitizeFileName nfkd input maxLength <> []) /\
  ((5 <= maxLength)%Z ->
   FileName.is_reserved (FileName.sanitizeFileName nfkd input maxLength) = false) /\
  ((forall s, input <> VStr s) \/ input = VStr [] ->
   FileName.sanitizeFileName nfkd input maxLength = lit "file").
Proof.
  assert (Hfile : Forall name_char (lit "file")) by (repeat constructor).
  unfold FileName.sanitizeFileName.
  destruct input as [| | | |[|c r]| |];
    try (split; [exact Hfile|]; split; [discriminate|];
         split; [reflexivity|]; reflexivity).
  cbv zeta. set (name := FileName.clean_name nfkd (c :: r)).
  pose proof (clean_name_chars nfkd (c :: r)) as Hchars.
  pose proof (clean_name_nonempty nfkd (c :: r)) as Hne.
  pose proof (clean_name_not_reserved nfkd (c :: r)) as Hres.
  fold name in Hchars, Hne, Hres.
  destruct (Z.ltb_spec maxLength (Z.of_nat (List.length name))) as [Hlong|Hshort].
  - split; [|split; [|split]].
    + apply Forall_app. split;
        [now apply slice0_Forall | now apply extension_Forall].
    + intros Hmax Hnil. apply app_eq_nil in Hnil. destruct Hnil as [Hb He].
      rewrite He in Hb. cbn [List.length] in Hb.
      rewrite Z.sub_0_r in Hb.
      pose proof (slice0_length name maxLength) as Hl.
      rewrite Hb in Hl. cbn [List.length] in Hl. lia.
    + intros Hmax. clear Hres.
      match goal with
      | |- FileName.is_reserved ?t = false =>
          destruct (FileName.is_reserved t) eqn:E; [|reflexivity]
      end.
      apply is_reserved_length in E. rewrite length_app in E.
      destruct (Z.le_gt_cases (Z.of_nat (List.length (FileName.extension name))) maxLength)
        as [Hext|Hext]; [|lia].
      rewrite slice0_length in E by lia. lia.
    + intros [H|H]; [now destruct (H (c :: r)) | discriminate H].
  - split; [exact Hchars|]. split; [intros _; exact Hne|].
    split; [intros _; exact Hres|].
    intros [H|H]; [now destruct (H (c :: r)) | discriminate H].
Qed.

Lemma sanitizeFileName_witness :
  let nfkd := fun s : jsstring => s in
  (1 <= 255)%Z /\ (5 <= 255)%Z /\
  FileName.sanitizeFileName nfkd (VStr (lit "https://a.b/c?d=\e")) 255 <> [] /\
  FileName.is_reserved (FileName.sanitizeFileName nfkd (VStr (lit "LPT1")) 255) = false /\
  ((forall s, VNull <> VStr s) \/ VNull = VStr []) /\
  FileName.sanitizeFileName nfkd VNull 255 = lit "file".
Proof.
  intros nfkd.
  assert (H1 : (1 <= 255)%Z) by lia. assert (H5 : (5 <= 255)%Z) by lia.
  assert (Hn : (forall s, VNull <> VStr s) \/ VNull = VStr [])
    by (left; discriminate).
  split; [exact H1|]. split; [exact H5|]. split; [|split; [|split]].
  - exact (proj1 (proj2 (sanitizeFileName_is_safe nfkd
                           (VStr (lit "https://a.b/c?d=\e")) 255)) H1).
  - exact (proj1 (proj2 (proj2 (sanitizeFileName_is_safe nfkd
                                  (VStr (lit "LPT1")) 255))) H5).
  - exact Hn.
  - exact (proj2 (proj2 (proj2 (sanitizeFileName_is_safe nfkd VNull 255))) Hn).
Defined.

(** X14: a name that is too long is cut to the length limit and keeps its
    extension: whenever the extension of the cleaned name is no longer
    than the limit, the file name is no longer than the limit, it is a
    beginning of the cleaned name followed by that extension, and it is
    the cleaned name itself when this one fits. *)
Theorem sanitizeFileName_keeps_extension
    (nfkd : jsstring -> jsstring) (c : char16) (r : jsstring) (maxLength : Z) :
  let name := FileName.clean_name nfkd (c :: r) in
  let ext := FileName.extension name in
  let out := FileName.sanitizeFileName nfkd (VStr (c :: r)) maxLength in
  (Z.of_nat (List.length ext) <= maxLength)%Z ->
  (Z.of_nat (List.length out) <= maxLength)%Z /\
  (exists base rest, out = base ++ ext /\ name = base ++ rest) /\
  ((Z.of_nat (List.length name) <= maxLength)%Z -> out = name).
Proof.
  intros name ext out Hext. unfold out, FileName.sanitizeFileName. cbv zeta.
  fold name. fold ext.
  destruct (Z.ltb_spec maxLength (Z.of_nat (List.length name))) as [Hlong|Hshort].
  - split; [|split; [|lia]].
    + rewrite length_app, slice0_length by lia. lia.
    + exists (FileName.slice0 name (maxLength - Z.of_nat (List.length ext))).
      unfold FileName.slice0. cbv zeta.
      set (n := Z.to_nat _). exists (skipn n name).
      split; [reflexivity | symmetry; apply firstn_skipn].
  - split; [exact Hshort|]. split; [|reflexivity].
    destruct (extension_suffix name) as [pre Hp]. fold ext in Hp.
    exists pre, ext. split; exact Hp.
Qed.

Lemma sanitizeFileName_extension_witness :
  let nfkd := fun s : jsstring => s in
  let name := FileName.clean_name nfkd (lit "report of the page.json") in
  let ext := FileName.extension name in
  let out := FileName.sanitizeFileName nfkd (VStr (lit "report of the page.json")) 12 in
  let out' := FileName.sanitizeFileName nfkd (VStr (lit "report of the page.json")) 255 in
  ((Z.of_nat (List.length ext) <= 12)%Z /\
   out = lit "report .json" /\
   (Z.of_nat (List.length out) <= 12)%Z /\
   (exists base rest, out = base ++ ext /\ name = base ++ rest)) /\
  ((Z.of_nat (List.length ext) <= 255)%Z /\
   (Z.of_nat (List.length name) <= 255)%Z /\
   out' = name).
Proof.
  intros nfkd name ext out out'.
  assert (H : (Z.of_nat (List.length ext) <= 12)%Z) by (vm_compute; discriminate).
  assert (H' : (Z.of_nat (List.length ext) <= 255)%Z) by (vm_compute; discriminate).
  assert (Hn : (Z.of_nat (List.length name) <= 255)%Z) by (vm_compute; discriminate).
  split.
  - split; [exact H|]. split; [reflexivity|].
    pose proof (sanitizeFileName_keeps_extension nfkd 114%N
                  (lit "eport of the page.json") 12 H) as [H1 [H2 _]].
    split; [exact H1 | exact H2].
  - split; [exact H'|]. split; [exact Hn|].
    exact (proj2 (proj2 (sanitizeFileName_keeps_extension nfkd 114%N
                           (lit "eport of the page.json") 255 H')) Hn).
Defined.

(* ================================================================== *)
(** * The heading tool and the image tool *)
(* ================================================================== *)

Lemma trimmed_property_Throw (key : jsstring) (g : jsstring -> value) (el : value) :
  (exists e, (t <- get el key ;; s <- call_trim t ;; Ok (g s)) = Throw e) <->
  ~ string_property key el.
Proof.
  unfold string_property. split.
  - intros [e H] [s Hs]. rewrite Hs in H. discriminate H.
  - intros H. destruct (get el key) as [t|e] eqn:G; cbn [bind]; [|now exists e].
    destruct t; cbn [call_trim bind]; try (now exists TypeError).
    exfalso. apply H. now eexists.
Qed.

(** X16: building the rows of the heading tool throws exactly when the
    innerText of some item is not a string, and building the rows of the
    image tool exactly when the src of some item is not a string: the
    functions of these schemas call trim on the property without a
    guard. *)
Theorem heading_and_image_tools_throw_iff (c : list value) :
  ((exists e, ListofObj_Base.buildRows (ListofObj_Base.new heading_schema c) = Throw e) <->
   (exists el, In el c /\ ~ string_property (lit "innerText") el)) /\
  ((exists e, ListofObj_Base.buildRows (ListofObj_Base.new image_schema c) = Throw e) <->
   (exists el, In el c /\ ~ string_property (lit "src") el)).
Proof.
  split; rewrite buildRows_Throw_iff; split.
  - intros [f [el [e [Hf [Hel He]]]]]. exists el. split; [exact Hel|].
    cbn [heading_schema map snd] in Hf.
    destruct Hf as [Hf|[Hf|[Hf|[]]]]; inversion Hf; subst; clear Hf;
      eapply trimmed_property_Throw; exists e; exact He.
  - intros [el [Hel Hn]].
    destruct (proj2 (trimmed_property_Throw (lit "innerText") VStr el) Hn) as [e He].
    eexists. exists el, e. split; [right; left; reflexivity|].
    split; [exact Hel | exact He].
  - intros [f [el [e [Hf [Hel He]]]]]. exists el. split; [exact Hel|].
    cbn [image_schema map snd] in Hf.
    destruct Hf as [Hf|[Hf|[Hf|[Hf|[Hf|[Hf|[Hf|[Hf|[Hf|[]]]]]]]]]];
      inversion Hf; subst; clear Hf.
    eapply trimmed_property_Throw; exists e; exact He.
  - intros [el [Hel Hn]].
    destruct (proj2 (trimmed_property_Throw (lit "src") img_tag el) Hn) as [e He].
    eexists. exists el, e. split; [right; left; reflexivity|].
    split; [exact Hel | exact He].
Qed.

Lemma heading_and_image_tools_witness :
  let c := [VObj [(lit "tagName", VStr (lit "H1"))]] in
  (exists el, In el c /\ ~ string_property (lit "innerText") el) /\
  (exists e, ListofObj_Base.buildRows (ListofObj_Base.new heading_schema c) = Throw e) /\
  (exists el, In el c /\ ~ string_property (lit "src") el) /\
  (exists e, ListofObj_Base.buildRows (ListofObj_Base.new image_schema c) = Throw e).
Proof.
  intros c.
  assert (H1 : exists el, In el c /\ ~ string_property (lit "innerText") el).
  { eexists. split; [now left|]. intros [s Hs]. discriminate Hs. }
  assert (H2 : exists el, In el c /\ ~ string_property (lit "src") el).
  { eexists. split; [now left|]. intros [s Hs]. discriminate Hs. }
  split; [exact H1|]. split.
  - exact (proj2 (proj1 (heading_and_image_tools_throw_iff c)) H1).
  - split; [exact H2|].
    exact (proj2 (proj2 (heading_and_image_tools_throw_iff c)) H2).
Defined.

(* ================================================================== *)
(** * The stand-alone renderer on plain values *)
(* ================================================================== *)

Lemma plain_formatValue (v : value) :
  is_plain v -> ListofObj_Base.formatValue v = Ok (plain_text v).
Proof.
  unfold is_plain, plain_text, is_scalar.
  destruct v; simpl; intros [H|H]; try discriminate; try contradiction; reflexivity.
Qed.

Lemma ClassSource_row_line_fmap (this : ListofObj_to_DelimitedText.t) (row : list value) :
  ClassSource.row_line this row
  = fmap (text_line (ListofObj_to_DelimitedText.columnDelimiter this)
            (ListofObj_to_DelimitedText.rowDelimiter this))
      (mapM ListofObj_Base.formatValue row).
Proof. reflexivity. Qed.

(** X17: the renderer of the stand-alone class source returns for every
    collection whose resolved values are null, undefined, booleans,
    numbers or strings: each line holds the trimmed string form of its
    values, and a null or an undefined value gives an empty cell. *)
Theorem ClassSource_render_plain_values
    (s : schema_t) (c : list value) (o : ListofObj_to_DelimitedText.options)
    (ttl : jsstring) (rows : list (list value)) :
  let this := ListofObj_to_DelimitedText.new s c o in
  let cd := ListofObj_to_DelimitedText.columnDelimiter this in
  let rd := ListofObj_to_DelimitedText.rowDelimiter this in
  ListofObj_Base.buildRows (ListofObj_Base.new s c) = Ok rows ->
  Forall (Forall is_plain) rows ->
  ClassSource.render (ListofObj_to_DelimitedText.setTitle ttl this)
  = Ok (ListofObj_to_DelimitedText.title_block ttl rd
        ++ text_line cd rd (lit "No." :: map fst s)
        ++ concat (map (text_line cd rd) (map (map plain_text) rows))).
Proof.
  intros this cd rd Hrows Hplain. unfold ClassSource.render.
  change (ListofObj_Base.buildRows
            (ListofObj_to_DelimitedText.base
               (ListofObj_to_DelimitedText.setTitle ttl this)))
    with (ListofObj_Base.buildRows (ListofObj_Base.new s c)).
  rewrite Hrows. cbn [bind].
  rewrite (mapM_ext _ _ rows (fun row _ => ClassSource_row_line_fmap _ row)), mapM_fmap.
  assert (Ht : mapM (mapM ListofObj_Base.formatValue) rows
               = Ok (map (map plain_text) rows)).
  { apply mapM_pure. intros row Hrow. apply mapM_pure. intros v Hv.
    apply plain_formatValue.
    eapply Forall_forall in Hplain; [|exact Hrow].
    eapply Forall_forall in Hplain; [exact Hplain|exact Hv]. }
  rewrite Ht. cbn [bind fmap]. f_equal. rewrite <- app_assoc. reflexivity.
Qed.

Lemma ClassSource_render_witness :
  let c := [item_named (VStr (lit " A ")); item_named VNull; VObj []] in
  let rows := [[VNum 1; VStr (lit " A ")]; [VNum 2; VNull]; [VNum 3; VUndefined]] in
  ListofObj_Base.buildRows (ListofObj_Base.new label_schema c) = Ok rows /\
  Forall (Forall is_plain) rows /\
  ClassSource.render
    (ListofObj_to_DelimitedText.setTitle []
       (ListofObj_to_DelimitedText.new label_schema c csv_options))
  = Ok (ListofObj_to_DelimitedText.title_block [] [CR; LF]
        ++ text_line (lit ",") [CR; LF] (lit "No." :: map fst label_schema)
        ++ concat (map (text_line (lit ",") [CR; LF]) (map (map plain_text) rows))).
Proof.
  intros c rows.
  assert (Hp : Forall (Forall is_plain) rows).
  { repeat (apply Forall_cons || apply Forall_nil);
      unfold is_plain, is_scalar; simpl; auto. }
  split; [reflexivity|]. split; [exact Hp|].
  exact (ClassSource_render_plain_values label_schema c csv_options [] rows eq_refl Hp).
Defined.
